(** * A shallow embedding of the chess rules engine of [chess.py]

    The development follows the class [ChessBoard]: the 8x8 grid of optional
    pieces, the bounds-guarded accessors, the per-kind movement rules, the
    attack scan, the legality check on a deep copy, the move executor and
    [make_move].

    Modelling conventions.
    - Python integers are [Z]; [abs] is [Z.abs]; [//] is [Z.div] (both floor).
    - [self.board] is a list of rows of optional pieces, indexed as the code
      indexes it.  [__init__] creates it 8x8 and every later update replaces
      one cell in place, so the shape never changes ([wf_grid]).
    - A [Piece] is stored by value.  The constructor creates one object per
      square and the executor only relocates objects, so no object ever sits
      on two squares; writing the flagged piece back to its cell is then the
      same as mutating [has_moved] in place.  [copy.deepcopy] is the identity
      on values.
    - Methods that assign to [self] live in the monad [M] (state plus
      exceptions); methods that only read are functions of the state. *)

From Stdlib Require Import ZArith Lia Bool Ascii String DecimalString.
From stdpp Require Import base list.

Local Open Scope Z_scope.

(** ** Data model *)

Inductive Color := WHITE | BLACK.

Inductive PieceType := PAWN | ROOK | KNIGHT | BISHOP | QUEEN | KING.

Record Piece := mkPiece {
  color : Color;
  piece_type : PieceType;
  has_moved : bool
}.

(** [Piece.__init__] *)
Definition new_Piece (c : Color) (t : PieceType) : Piece := mkPiece c t false.

Definition Color_eqb (a b : Color) : bool :=
  match a, b with
  | WHITE, WHITE | BLACK, BLACK => true
  | _, _ => false
  end.

Definition PieceType_eqb (a b : PieceType) : bool :=
  match a, b with
  | PAWN, PAWN | ROOK, ROOK | KNIGHT, KNIGHT
  | BISHOP, BISHOP | QUEEN, QUEEN | KING, KING => true
  | _, _ => false
  end.

(** [Piece.__str__] *)
Definition Piece_str (p : Piece) : string :=
  match color p, piece_type p with
  | WHITE, PAWN => "♙" | WHITE, ROOK => "♖" | WHITE, KNIGHT => "♘"
  | WHITE, BISHOP => "♗" | WHITE, QUEEN => "♕" | WHITE, KING => "♔"
  | BLACK, PAWN => "♟" | BLACK, ROOK => "♜" | BLACK, KNIGHT => "♞"
  | BLACK, BISHOP => "♝" | BLACK, QUEEN => "♛" | BLACK, KING => "♚"
  end%string.

(** The dictionary appended to [move_history] by [make_move]. *)
Record MoveRecord := mkMoveRecord {
  mr_from : Z * Z;
  mr_to : Z * Z;
  mr_piece : string;
  mr_captured : option string
}.

Abbreviation Grid := (list (list (option Piece))).

Record ChessBoard := mkChessBoard {
  board : Grid;
  current_turn : Color;
  move_history : list MoveRecord;
  en_passant_target : option (Z * Z)
}.

Definition with_board (g : Grid) (s : ChessBoard) : ChessBoard :=
  mkChessBoard g (current_turn s) (move_history s) (en_passant_target s).

Definition with_en_passant_target (t : option (Z * Z)) (s : ChessBoard) : ChessBoard :=
  mkChessBoard (board s) (current_turn s) (move_history s) t.

Definition with_current_turn (c : Color) (s : ChessBoard) : ChessBoard :=
  mkChessBoard (board s) c (move_history s) (en_passant_target s).

Definition with_move_history (h : list MoveRecord) (s : ChessBoard) : ChessBoard :=
  mkChessBoard (board s) (current_turn s) h (en_passant_target s).

(** ** The grid: [self.board[row][col]] read and assigned *)

Definition grid_get (g : Grid) (row col : Z) : option Piece :=
  match g !! Z.to_nat row with
  | Some cells =>
      match cells !! Z.to_nat col with
      | Some cell => cell
      | None => None
      end
  | None => None
  end.

Definition grid_set (g : Grid) (row col : Z) (piece : option Piece) : Grid :=
  alter (fun cells => <[Z.to_nat col := piece]> cells) (Z.to_nat row) g.

(** The shape fixed by [__init__]: 8 rows of 8 cells. *)
Definition wf_grid (g : Grid) : Prop :=
  length g = 8%nat /\ Forall (fun cells => length cells = 8%nat) g.

(** ** State and exceptions *)

Inductive exn := ValueError | AttributeError.

Inductive result (A : Type) :=
| Ok (a : A)
| Raise (e : exn).
Arguments Ok {A} a.
Arguments Raise {A} e.

Definition M (A : Type) : Type := ChessBoard -> result A * ChessBoard.

Definition ret {A} (a : A) : M A := fun self => (Ok a, self).

Definition bind {A B} (m : M A) (k : A -> M B) : M B :=
  fun self =>
    match m self with
    | (Ok a, self') => k a self'
    | (Raise e, self') => (Raise e, self')
    end.

Notation "x <- m ;; k" := (bind m (fun x => k))
  (at level 100, m at next level, right associativity).
Notation "m ;;; k" := (bind m (fun _ => k))
  (at level 100, right associativity).

Definition get_self : M ChessBoard := fun self => (Ok self, self).

Definition modify (f : ChessBoard -> ChessBoard) : M unit :=
  fun self => (Ok tt, f self).

Definition lift {A} (r : result A) : M A := fun self => (r, self).

Definition when (b : bool) (m : M unit) : M unit := if b then m else ret tt.

(** [try: body except ValueError: handler] *)
Definition try_except_ValueError {A} (body handler : M A) : M A :=
  fun self =>
    match body self with
    | (Raise ValueError, self') => handler self'
    | other => other
    end.

(** ** Accessors *)

(** [0 <= row < 8 and 0 <= col < 8] *)
Definition is_valid_position (row col : Z) : bool :=
  (0 <=? row) && (row <? 8) && ((0 <=? col) && (col <? 8)).

Definition get_piece (self : ChessBoard) (row col : Z) : option Piece :=
  if is_valid_position row col then grid_get (board self) row col else None.

Definition set_piece (row col : Z) (piece : option Piece) : M unit :=
  when (is_valid_position row col)
       (modify (fun self => with_board (grid_set (board self) row col piece) self)).

(** The unguarded assignment [self.board[row][col] = piece]. *)
Definition board_assign (row col : Z) (piece : option Piece) : M unit :=
  modify (fun self => with_board (grid_set (board self) row col piece) self).

Definition is_none {A} (o : option A) : bool :=
  match o with None => true | Some _ => false end.

Definition is_empty (self : ChessBoard) (row col : Z) : bool :=
  is_valid_position row col && is_none (grid_get (board self) row col).

Definition is_occupied_by_color (self : ChessBoard) (row col : Z) (c : Color) : bool :=
  match get_piece self row col with
  | Some piece => Color_eqb (color piece) c
  | None => false
  end.

Definition is_occupied_by_opponent (self : ChessBoard) (row col : Z) (c : Color) : bool :=
  match get_piece self row col with
  | Some piece => negb (Color_eqb (color piece) c)
  | None => false
  end.

(** [range(n)] and the row-major scan [for row in range(8): for col in range(8)] *)
Definition range (n : nat) : list Z := map Z.of_nat (seq 0 n).

Definition squares : list (Z * Z) :=
  flat_map (fun row => map (fun col => (row, col)) (range 8)) (range 8).

(** ** Construction: [__init__] and [_setup_initial_position] *)

Definition piece_order : list PieceType :=
  [ROOK; KNIGHT; BISHOP; QUEEN; KING; BISHOP; KNIGHT; ROOK].

Definition empty_grid : Grid := replicate 8 (replicate 8 None).

Definition place_pawns (g : Grid) : Grid :=
  foldl (fun g col =>
           grid_set (grid_set g 1 col (Some (new_Piece BLACK PAWN)))
                    6 col (Some (new_Piece WHITE PAWN)))
        g (range 8).

Definition place_back_ranks (g : Grid) : Grid :=
  foldl (fun g '(col, t) =>
           grid_set (grid_set g 0 col (Some (new_Piece BLACK t)))
                    7 col (Some (new_Piece WHITE t)))
        g (zip (range 8) piece_order).

Definition _setup_initial_position (g : Grid) : Grid :=
  place_back_ranks (place_pawns g).

Definition new_ChessBoard : ChessBoard :=
  mkChessBoard (_setup_initial_position empty_grid) WHITE [] None.

(** ** Movement rules (no check considerations) *)

(** [(row, col) == self.en_passant_target]; a tuple never equals [None]. *)
Definition is_en_passant_target (self : ChessBoard) (row col : Z) : bool :=
  match en_passant_target self with
  | Some (r, c) => (row =? r) && (col =? c)
  | None => false
  end.

Definition pawn_direction (c : Color) : Z :=
  match c with WHITE => -1 | BLACK => 1 end.

Definition pawn_start_row (c : Color) : Z :=
  match c with WHITE => 6 | BLACK => 1 end.

(** Reading [piece.color] of [None] raises [AttributeError]. *)
Definition _is_valid_pawn_move (self : ChessBoard) (from_row from_col to_row to_col : Z)
  : result bool :=
  match get_piece self from_row from_col with
  | None => Raise AttributeError
  | Some piece =>
      let direction := pawn_direction (color piece) in
      let start_row := pawn_start_row (color piece) in
      if (from_col =? to_col) && is_empty self to_row to_col
         && ((to_row =? from_row + direction)
             || ((from_row =? start_row) && (to_row =? from_row + 2 * direction)))
      then Ok true
      else if (Z.abs (to_col - from_col) =? 1) && (to_row =? from_row + direction)
      then
        match get_piece self to_row to_col with
        | Some target_piece =>
            if negb (Color_eqb (color target_piece) (color piece)) then Ok true
            else Ok (is_en_passant_target self to_row to_col)
        | None => Ok (is_en_passant_target self to_row to_col)
        end
      else Ok false
  end.

(** The [while] loop of [_is_path_clear]; [None] when [fuel] iterations were
    not enough to leave the loop. *)
Fixpoint path_loop (fuel : nat) (self : ChessBoard)
  (row_step col_step current_row current_col to_row to_col : Z) : option bool :=
  match fuel with
  | O => None
  | S fuel' =>
      if negb ((current_row =? to_row) && (current_col =? to_col)) then
        if negb (is_empty self current_row current_col) then Some false
        else path_loop fuel' self row_step col_step
               (current_row + row_step) (current_col + col_step) to_row to_col
      else Some true
  end.

Definition step_toward (from to : Z) : Z :=
  if to =? from then 0 else if to >? from then 1 else -1.

(** Nine tests of the loop condition always suffice ([path_loop_enough]):
    a square that lets the loop go on lies on the board, and the walk
    leaves the board after at most eight of them. *)
Definition path_fuel : nat := 9.

Definition _is_path_clear (self : ChessBoard) (from_row from_col to_row to_col : Z) : bool :=
  let row_step := step_toward from_row to_row in
  let col_step := step_toward from_col to_col in
  match path_loop path_fuel self row_step col_step
          (from_row + row_step) (from_col + col_step) to_row to_col with
  | Some clear => clear
  | None => false
  end.

Definition _is_valid_rook_move (self : ChessBoard) (from_row from_col to_row to_col : Z) : bool :=
  if negb (from_row =? to_row) && negb (from_col =? to_col) then false
  else _is_path_clear self from_row from_col to_row to_col.

Definition _is_valid_knight_move (self : ChessBoard) (from_row from_col to_row to_col : Z) : bool :=
  let row_diff := Z.abs (to_row - from_row) in
  let col_diff := Z.abs (to_col - from_col) in
  ((row_diff =? 2) && (col_diff =? 1)) || ((row_diff =? 1) && (col_diff =? 2)).

Definition _is_valid_bishop_move (self : ChessBoard) (from_row from_col to_row to_col : Z) : bool :=
  if negb (Z.abs (to_row - from_row) =? Z.abs (to_col - from_col)) then false
  else _is_path_clear self from_row from_col to_row to_col.

Definition _is_valid_queen_move (self : ChessBoard) (from_row from_col to_row to_col : Z) : bool :=
  _is_valid_rook_move self from_row from_col to_row to_col
  || _is_valid_bishop_move self from_row from_col to_row to_col.

(** [rook and rook.piece_type == ROOK and not rook.has_moved] *)
Definition unmoved_rook (rook : option Piece) : bool :=
  match rook with
  | Some r => PieceType_eqb (piece_type r) ROOK && negb (has_moved r)
  | None => false
  end.

Definition _is_valid_castling (self : ChessBoard) (from_row from_col to_row to_col : Z) : bool :=
  match get_piece self from_row from_col with
  | None => false
  | Some piece =>
      if negb (PieceType_eqb (piece_type piece) KING) || has_moved piece then false
      else if Color_eqb (color piece) WHITE && negb (from_row =? 7) then false
      else if Color_eqb (color piece) BLACK && negb (from_row =? 0) then false
      else if (to_col =? from_col + 2)
              && (unmoved_rook (get_piece self from_row 7)
                  && is_empty self from_row (from_col + 1)
                  && is_empty self from_row (from_col + 2))
      then true
      else if (to_col =? from_col - 2)
              && (unmoved_rook (get_piece self from_row 0)
                  && is_empty self from_row (from_col - 1)
                  && is_empty self from_row (from_col - 2)
                  && is_empty self from_row (from_col - 3))
      then true
      else false
  end.

Definition _is_valid_king_move (self : ChessBoard) (from_row from_col to_row to_col : Z) : bool :=
  let row_diff := Z.abs (to_row - from_row) in
  let col_diff := Z.abs (to_col - from_col) in
  if (row_diff <=? 1) && (col_diff <=? 1) then true
  else _is_valid_castling self from_row from_col to_row to_col.

Definition _is_valid_move_internal (self : ChessBoard) (from_row from_col to_row to_col : Z)
  : result bool :=
  match get_piece self from_row from_col with
  | None => Ok false
  | Some piece =>
      if (from_row =? to_row) && (from_col =? to_col) then Ok false
      else if match get_piece self to_row to_col with
              | Some target_piece => Color_eqb (color target_piece) (color piece)
              | None => false
              end
      then Ok false
      else
        match piece_type piece with
        | PAWN => _is_valid_pawn_move self from_row from_col to_row to_col
        | ROOK => Ok (_is_valid_rook_move self from_row from_col to_row to_col)
        | KNIGHT => Ok (_is_valid_knight_move self from_row from_col to_row to_col)
        | BISHOP => Ok (_is_valid_bishop_move self from_row from_col to_row to_col)
        | QUEEN => Ok (_is_valid_queen_move self from_row from_col to_row to_col)
        | KING => Ok (_is_valid_king_move self from_row from_col to_row to_col)
        end
  end.

(** ** Attack oracle *)

Fixpoint find_king (self : ChessBoard) (c : Color) (sqs : list (Z * Z)) : option (Z * Z) :=
  match sqs with
  | [] => None
  | (row, col) :: rest =>
      match get_piece self row col with
      | Some piece =>
          if PieceType_eqb (piece_type piece) KING && Color_eqb (color piece) c
          then Some (row, col)
          else find_king self c rest
      | None => find_king self c rest
      end
  end.

Definition get_king_position (self : ChessBoard) (c : Color) : result (Z * Z) :=
  match find_king self c squares with
  | Some pos => Ok pos
  | None => Raise ValueError
  end.

Definition can_attack_square (from_row from_col to_row to_col : Z) : M bool :=
  self <- get_self ;;
  match get_piece self from_row from_col with
  | None => ret false
  | Some _ =>
      let original_piece := grid_get (board self) from_row from_col in
      board_assign from_row from_col None ;;;
      cleared <- get_self ;;
      can_attack <- lift (_is_valid_move_internal cleared from_row from_col to_row to_col) ;;
      board_assign from_row from_col original_piece ;;;
      ret can_attack
  end.

(** The double loop of [is_square_attacked] over the squares still to visit. *)
Fixpoint attack_scan (sqs : list (Z * Z)) (row col : Z) (by_color : Color) : M bool :=
  match sqs with
  | [] => ret false
  | (r, c) :: rest =>
      self <- get_self ;;
      match get_piece self r c with
      | Some piece =>
          if Color_eqb (color piece) by_color then
            hit <- can_attack_square r c row col ;;
            if hit then ret true else attack_scan rest row col by_color
          else attack_scan rest row col by_color
      | None => attack_scan rest row col by_color
      end
  end.

Definition is_square_attacked (row col : Z) (by_color : Color) : M bool :=
  attack_scan squares row col by_color.

Definition is_in_check (c : Color) : M bool :=
  try_except_ValueError
    (self <- get_self ;;
     king <- lift (get_king_position self c) ;;
     is_square_attacked (fst king) (snd king) c)
    (ret false).

(** ** Move executor *)

Definition mark_moved (p : Piece) : Piece := mkPiece (color p) (piece_type p) true.

Definition is_type (piece : option Piece) (t : PieceType) : bool :=
  match piece with
  | Some p => PieceType_eqb (piece_type p) t
  | None => false
  end.

Definition captured_pawn_row (piece : Piece) (to_row : Z) : Z :=
  to_row + (if Color_eqb (color piece) WHITE then 1 else -1).

(** [relocate_rook r a b]: [rook = get_piece(r, a); set_piece(r, b, rook);
    set_piece(r, a, None)]. *)
Definition relocate_rook (row corner dest : Z) : M unit :=
  self <- get_self ;;
  let rook := get_piece self row corner in
  set_piece row dest rook ;;;
  set_piece row corner None.

Definition _make_move_internal (from_row from_col to_row to_col : Z) : M unit :=
  self <- get_self ;;
  let piece := option_map mark_moved (get_piece self from_row from_col) in
  (* piece.has_moved = True, seen through the cell that holds the piece *)
  when (negb (is_none piece)) (board_assign from_row from_col piece) ;;;
  flagged <- get_self ;;
  match piece with
  | Some p =>
      when (PieceType_eqb (piece_type p) PAWN && is_en_passant_target flagged to_row to_col)
           (set_piece (captured_pawn_row p to_row) to_col None)
  | None => ret tt
  end ;;;
  when (is_type piece KING && (Z.abs (to_col - from_col) =? 2))
       (if to_col >? from_col then relocate_rook from_row 7 5
        else relocate_rook from_row 0 3) ;;;
  set_piece to_row to_col piece ;;;
  set_piece from_row from_col None ;;;
  modify (with_en_passant_target
            (if is_type piece PAWN && (Z.abs (to_row - from_row) =? 2)
             then Some ((to_row + from_row) / 2, to_col)
             else None)).

(** ** Legal move validator and [make_move] *)

Definition opposite (c : Color) : Color :=
  match c with WHITE => BLACK | BLACK => WHITE end.

Definition is_valid_move (from_row from_col to_row to_col : Z) : M bool :=
  self <- get_self ;;
  match get_piece self from_row from_col with
  | None => ret false
  | Some piece =>
      if negb (Color_eqb (color piece) (current_turn self)) then ret false
      else
        shape_ok <- lift (_is_valid_move_internal self from_row from_col to_row to_col) ;;
        if negb shape_ok then ret false
        else
          (* temp_board = copy.deepcopy(self): the calls below run on the copy *)
          let temp_board := self in
          in_check <- lift (fst ((_make_move_internal from_row from_col to_row to_col ;;;
                                  is_in_check (current_turn self)) temp_board)) ;;
          if in_check then ret false else ret true
  end.

Definition make_move (from_row from_col to_row to_col : Z) : M bool :=
  valid <- is_valid_move from_row from_col to_row to_col ;;
  if negb valid then ret false
  else
    self <- get_self ;;
    let move_record :=
      mkMoveRecord (from_row, from_col) (to_row, to_col)
        (match get_piece self from_row from_col with
         | Some p => Piece_str p
         | None => "None"%string
         end)
        (option_map Piece_str (get_piece self to_row to_col)) in
    _make_move_internal from_row from_col to_row to_col ;;;
    modify (fun self => with_move_history (move_history self ++ [move_record]) self) ;;;
    modify (fun self => with_current_turn (opposite (current_turn self)) self) ;;;
    ret true.

(** ** Fixtures *)

(** Run a list of [set_piece] calls, as the test fixtures do. *)
Fixpoint set_pieces (l : list (Z * Z * option Piece)) : M unit :=
  match l with
  | [] => ret tt
  | (row, col, piece) :: rest => set_piece row col piece ;;; set_pieces rest
  end.

Definition empty_board : ChessBoard := mkChessBoard empty_grid WHITE [] None.

(** White King alone at (4,4), Black Queen at (4,0). *)
Definition check_scenario : ChessBoard :=
  snd (set_pieces [(4, 4, Some (new_Piece WHITE KING));
                   (4, 0, Some (new_Piece BLACK QUEEN))] empty_board).

(** ** Reasoning principles *)

(** Squares left on the board ahead of [cur] when walking by [step]: the
    measure that bounds the loop of [_is_path_clear]. *)
Definition room (step cur : Z) : nat :=
  if (0 <=? cur) && (cur <? 8) then
    if step =? 1 then Z.to_nat (8 - cur) else Z.to_nat (cur + 1)
  else O.

(** [wp m Q self]: run from [self], [m] returns normally and [Q] holds of
    its result and final state. *)
Definition wp {A} (m : M A) (Q : A -> ChessBoard -> Prop) (self : ChessBoard) : Prop :=
  match m self with
  | (Ok a, self') => Q a self'
  | (Raise _, _) => False
  end.

(** [m] never raises, from any state. *)
Definition never_raises {A} (m : M A) : Prop :=
  forall self, wp m (fun _ _ => True) self.

(** Play a list of moves through [make_move]; [True] when all were accepted. *)
Fixpoint play (moves : list (Z * Z * Z * Z)) : M bool :=
  match moves with
  | [] => ret true
  | (from_row, from_col, to_row, to_col) :: rest =>
      ok <- make_move from_row from_col to_row to_col ;;
      if ok then play rest else ret false
  end.

(** 1. Nc3 a6: a White knight stands in front of the pawn on (6,2). *)
Definition knight_before_pawn : ChessBoard :=
  snd (play [(7, 1, 5, 2); (1, 0, 2, 0)] new_ChessBoard).

(** 1. Nh3 a6 2. g4 a5 3. Bg2 a4 4. Be4 a3: the squares between the White
    King and the rook in the corner (7,7) are empty, neither has moved. *)
Definition kingside_cleared : ChessBoard :=
  snd (play [(7, 6, 5, 7); (1, 0, 2, 0); (6, 6, 4, 6); (2, 0, 3, 0);
             (7, 5, 6, 6); (3, 0, 4, 0); (6, 6, 4, 4); (4, 0, 5, 0)]
         new_ChessBoard).

(** 1. e4 a6 2. e5 d5: Black has just double-stepped next to the pawn on
    (3,4); the en-passant target is (2,3). *)
Definition en_passant_ready : ChessBoard :=
  snd (play [(6, 4, 4, 4); (1, 0, 2, 0); (4, 4, 3, 4); (1, 3, 3, 3)] new_ChessBoard).

(** Every square other than the listed ones is empty. *)
Definition only_on (self : ChessBoard) (occupied : list (Z * Z)) : bool :=
  forallb (fun '(row, col) =>
             is_none (get_piece self row col)
             || existsb (fun '(r, c) => (row =? r) && (col =? c)) occupied)
          squares.

(** The row on which [_is_valid_castling] wants the King. *)
Definition home_row (c : Color) : Z :=
  match c with WHITE => 7 | BLACK => 0 end.

(** ** Terminal states and move enumeration *)

(** The inner loops [for to_row in range(8): for to_col in range(8)] of
    [is_checkmate] and [is_stalemate] over the destinations still to try:
    [True] when [is_valid_move] accepts one (the code then returns). *)
Fixpoint some_valid_destination (from_row from_col : Z) (dests : list (Z * Z)) : M bool :=
  match dests with
  | [] => ret false
  | (to_row, to_col) :: rest =>
      valid <- is_valid_move from_row from_col to_row to_col ;;
      if valid then ret true else some_valid_destination from_row from_col rest
  end.

(** The outer loops over the origins still to visit. *)
Fixpoint some_valid_move (c : Color) (origins : list (Z * Z)) : M bool :=
  match origins with
  | [] => ret false
  | (from_row, from_col) :: rest =>
      self <- get_self ;;
      match get_piece self from_row from_col with
      | Some piece =>
          if Color_eqb (color piece) c then
            found <- some_valid_destination from_row from_col squares ;;
            if found then ret true else some_valid_move c rest
          else some_valid_move c rest
      | None => some_valid_move c rest
      end
  end.

Definition is_checkmate (c : Color) : M bool :=
  in_check <- is_in_check c ;;
  if negb in_check then ret false
  else
    found <- some_valid_move c squares ;;
    if found then ret false else ret true.

Definition is_stalemate (c : Color) : M bool :=
  in_check <- is_in_check c ;;
  if in_check then ret false
  else
    found <- some_valid_move c squares ;;
    if found then ret false else ret true.

(** The loops of [get_all_valid_moves]; the moves come out in the order in
    which the code appends them. *)
Fixpoint valid_destinations (from_row from_col : Z) (dests : list (Z * Z))
  : M (list (Z * Z * Z * Z)) :=
  match dests with
  | [] => ret []
  | (to_row, to_col) :: rest =>
      valid <- is_valid_move from_row from_col to_row to_col ;;
      moves <- valid_destinations from_row from_col rest ;;
      ret (if valid then (from_row, from_col, to_row, to_col) :: moves else moves)
  end.

Fixpoint valid_moves_from (c : Color) (origins : list (Z * Z)) : M (list (Z * Z * Z * Z)) :=
  match origins with
  | [] => ret []
  | (from_row, from_col) :: rest =>
      self <- get_self ;;
      match get_piece self from_row from_col with
      | Some piece =>
          if Color_eqb (color piece) c then
            here <- valid_destinations from_row from_col squares ;;
            moves <- valid_moves_from c rest ;;
            ret (here ++ moves)
          else valid_moves_from c rest
      | None => valid_moves_from c rest
      end
  end.

Definition get_all_valid_moves (c : Color) : M (list (Z * Z * Z * Z)) :=
  valid_moves_from c squares.

(** ** [ChessGame]: move strings

    A Python string is the list of its code points: a character is a code
    point, [ord] gives it and [chr] takes it ([chr] is called by
    [show_valid_moves] on [ord('a') + col] for the columns of listed moves
    only, well inside the range of code points).  [int(ch)] of a
    one-character string is decided by Python's table of the Unicode decimal
    digits, which is no part of the program: it is the parameter [decimal],
    giving the value of a code point that is a decimal digit and [None] for
    every other code point. *)

Abbreviation pystr := (list Z).

(** The code point of an ASCII character and the string of a literal. *)
Definition char (ch : ascii) : Z := Z.of_N (N_of_ascii ch).

Definition literal (s : string) : pystr := map char (list_ascii_of_string s).

Definition ord (ch : Z) : Z := ch.

Definition chr (code : Z) : Z := code.

(** [int(ch)] of a one-character string; [None] is the [ValueError]. *)
Definition int_of_char (decimal : Z -> option Z) (ch : Z) : option Z := decimal ch.

(** [str(n)] of an integer. *)
Definition str_int (n : Z) : pystr := literal (NilZero.string_of_int (Z.to_int n)).

Definition parse_move (decimal : Z -> option Z) (move_str : pystr)
  : option (Z * Z * Z * Z) :=
  match move_str with
  | [c0; c1; c2; c3] =>
      (* len(move_str) == 4; a ValueError of int() leads to return None *)
      match int_of_char decimal c1, int_of_char decimal c3 with
      | Some d1, Some d3 =>
          let from_col := ord c0 - ord (char "a") in
          let from_row := 8 - d1 in
          let to_col := ord c2 - ord (char "a") in
          let to_row := 8 - d3 in
          if (0 <=? from_row) && (from_row <? 8) && ((0 <=? from_col) && (from_col <? 8))
             && ((0 <=? to_row) && (to_row <? 8) && ((0 <=? to_col) && (to_col <? 8)))
          then Some (from_row, from_col, to_row, to_col)
          else None
      | _, _ => None
      end
  | _ => None
  end.

(** [ChessGame.make_move], on the state of [self.board]. *)
Definition ChessGame_make_move (decimal : Z -> option Z) (move_str : pystr) : M bool :=
  match parse_move decimal move_str with
  | None => ret false
  | Some (from_row, from_col, to_row, to_col) =>
      make_move from_row from_col to_row to_col
  end.

(** The names [show_valid_moves] prints:
    [chr(ord('a') + col) + str(8 - row)] for each end of the move. *)
Definition square_name (row col : Z) : pystr :=
  chr (ord (char "a") + col) :: str_int (8 - row).

Definition move_name (move : Z * Z * Z * Z) : pystr :=
  let '(from_row, from_col, to_row, to_col) := move in
  square_name from_row from_col ++ square_name to_row to_col.

(** The table gives the ASCII digits their values, as Python's does. *)
Definition knows_ascii_digits (decimal : Z -> option Z) : Prop :=
  forall d, 0 <= d <= 9 -> decimal (char "0" + d) = Some d.

(** Two rows of Python's table, for examples: the ASCII digits and the
    fullwidth digits U+FF10 to U+FF19. *)
Definition sample_decimal (ch : Z) : option Z :=
  if (48 <=? ch) && (ch <=? 57) then Some (ch - 48)
  else if (65296 <=? ch) && (ch <=? 65305) then Some (ch - 65296)
  else None.

(** 1. Nc3 d5 2. a3 d4 3. c4: the White pawn has double-stepped from (6,2)
    over the knight on (5,2), which now stands on the en-passant target,
    next to the Black pawn on (4,3). *)
Definition knight_on_target : ChessBoard :=
  snd (play [(7, 1, 5, 2); (1, 3, 3, 3); (6, 0, 5, 0); (3, 3, 4, 3); (6, 2, 4, 2)]
         new_ChessBoard).

(** [m] keeps [P]: run from a state with [P] it returns normally in a state
    with [P]. *)
Definition preserves {A} (P : ChessBoard -> Prop) (m : M A) : Prop :=
  forall self, P self -> wp m (fun _ self' => P self') self.

(** No King of color [c] stands on the board. *)
Definition no_king (self : ChessBoard) (c : Color) : Prop :=
  forall row col p, get_piece self row col = Some p ->
                    ~ (piece_type p = KING /\ color p = c).

(** The boolean [is_valid_move] returns ([False] standing in for a raise,
    which [is_valid_move_accepted] shows never happens). *)
Definition accepted (self : ChessBoard) (from_row from_col to_row to_col : Z) : bool :=
  match fst (is_valid_move from_row from_col to_row to_col self) with
  | Ok valid => valid
  | Raise _ => false
  end.

(** [x] lies strictly between [a] and [b]. *)
Definition strictly_between (a x b : Z) : Prop := a < x < b \/ b < x < a.

(** * Properties *)

(** ** The grid *)

Section Grid.
Implicit Types (g : Grid) (row col : Z) (x : option Piece).

Lemma is_valid_position_spec row col :
  is_valid_position row col = true <-> (0 <= row < 8 /\ 0 <= col < 8).
Proof. unfold is_valid_position. lia. Qed.

Lemma is_valid_position_false row col :
  is_valid_position row col = false <-> ~ (0 <= row < 8 /\ 0 <= col < 8).
Proof.
  rewrite <- is_valid_position_spec.
  destruct (is_valid_position row col); split; intros; congruence.
Qed.

(** A cleared cell reads as empty, whatever the shape of the grid. *)
Lemma grid_get_set_None g row col :
  grid_get (grid_set g row col None) row col = None.
Proof.
  unfold grid_get, grid_set. rewrite list_lookup_alter_eq.
  destruct (g !! Z.to_nat row) as [cells|] eqn:Hrow; simpl; [|done].
  destruct (decide (Z.to_nat col < length cells)%nat) as [Hlt|Hge].
  - by rewrite list_lookup_insert_eq.
  - rewrite list_insert_ge by lia.
    rewrite (lookup_ge_None_2 cells) by lia. done.
Qed.

Lemma grid_get_set_eq g row col x :
  wf_grid g -> is_valid_position row col = true ->
  grid_get (grid_set g row col x) row col = x.
Proof.
  intros [Hlen Hrows] [Hr Hc]%is_valid_position_spec.
  unfold grid_get, grid_set. rewrite list_lookup_alter_eq.
  destruct (lookup_lt_is_Some_2 g (Z.to_nat row)) as [cells Hcells]; [lia|].
  rewrite Hcells. simpl.
  rewrite Forall_lookup in Hrows. specialize (Hrows _ _ Hcells).
  rewrite list_lookup_insert_eq by lia. done.
Qed.

Lemma grid_get_set_ne g row col x row' col' :
  0 <= row -> 0 <= col -> 0 <= row' -> 0 <= col' ->
  (row, col) <> (row', col') ->
  grid_get (grid_set g row col x) row' col' = grid_get g row' col'.
Proof.
  intros ? ? ? ? Hne. unfold grid_get, grid_set.
  destruct (decide (Z.to_nat row = Z.to_nat row')) as [Heq|Hneq].
  - rewrite <- Heq, list_lookup_alter_eq.
    destruct (g !! Z.to_nat row) as [cells|]; simpl; [|done].
    rewrite list_lookup_insert_ne; [done|].
    intros Hcol. apply Hne. f_equal; lia.
  - by rewrite list_lookup_alter_ne.
Qed.

(** Putting back what a cell held undoes any assignment to that cell. *)
Lemma grid_set_restore g row col x p :
  grid_get g row col = Some p ->
  grid_set (grid_set g row col x) row col (Some p) = g.
Proof.
  unfold grid_get, grid_set. intros Hget.
  rewrite list_alter_alter_eq.
  destruct (g !! Z.to_nat row) as [cells|] eqn:Hrow; [|done].
  destruct (cells !! Z.to_nat col) as [cell|] eqn:Hcol; [|done].
  subst cell.
  rewrite (list_alter_ext _ id g g); [by apply list_alter_id|..|done].
  intros cells' Hcells'. simpl.
  assert (cells' = cells) as -> by congruence.
  rewrite list_insert_insert_eq. by apply list_insert_id.
Qed.

Lemma grid_set_wf g row col x : wf_grid g -> wf_grid (grid_set g row col x).
Proof.
  intros [Hlen Hrows]. unfold grid_set. split.
  - by rewrite length_alter.
  - rewrite Forall_lookup in Hrows. apply Forall_lookup. intros i cells.
    destruct (decide (Z.to_nat row = i)) as [<-|Hne].
    + rewrite list_lookup_alter_eq.
      destruct (g !! Z.to_nat row) as [old|] eqn:Hold; simpl; [|done].
      intros [= <-]. rewrite length_insert. eauto.
    + rewrite list_lookup_alter_ne by done. eauto.
Qed.

Lemma empty_grid_wf : wf_grid empty_grid.
Proof. split; [done|]. repeat constructor. Qed.

Lemma new_ChessBoard_wf : wf_grid (board new_ChessBoard).
Proof. split; [done|]. repeat constructor. Qed.
End Grid.

(** ** The path walk leaves its loop *)

Section PathLoop.
Variable self : ChessBoard.

Lemma is_empty_valid row col :
  is_empty self row col = true -> 0 <= row < 8 /\ 0 <= col < 8.
Proof.
  unfold is_empty. intros [H _]%andb_prop. by apply is_valid_position_spec.
Qed.

Lemma path_loop_S fuel rs cs cr cc tr tc b :
  path_loop fuel self rs cs cr cc tr tc = Some b ->
  path_loop (S fuel) self rs cs cr cc tr tc = Some b.
Proof.
  revert cr cc. induction fuel as [|fuel IH]; intros cr cc; [done|].
  intros H. simpl in H. change (path_loop (S (S fuel)) self rs cs cr cc tr tc)
    with (if negb ((cr =? tr) && (cc =? tc)) then
            if negb (is_empty self cr cc) then Some false
            else path_loop (S fuel) self rs cs (cr + rs) (cc + cs) tr tc
          else Some true).
  destruct (negb ((cr =? tr) && (cc =? tc))); [|done].
  destruct (negb (is_empty self cr cc)); [done|]. by apply IH.
Qed.

Lemma path_loop_le fuel fuel' rs cs cr cc tr tc b :
  (fuel <= fuel')%nat ->
  path_loop fuel self rs cs cr cc tr tc = Some b ->
  path_loop fuel' self rs cs cr cc tr tc = Some b.
Proof. induction 1; auto using path_loop_S. Qed.

Lemma room_step step cur :
  step = 1 \/ step = -1 -> 0 <= cur < 8 ->
  (room step (cur + step) < room step cur)%nat.
Proof. unfold room. intros [-> | ->] ?; simpl; repeat case_match; lia. Qed.

Lemma path_loop_row fuel rs cs cr cc tr tc :
  rs = 1 \/ rs = -1 -> (room rs cr < fuel)%nat ->
  is_Some (path_loop fuel self rs cs cr cc tr tc).
Proof.
  intros Hrs. revert cr cc. induction fuel as [|fuel IH]; intros cr cc Hroom; [lia|].
  simpl. destruct (negb ((cr =? tr) && (cc =? tc))); [|by eexists].
  destruct (is_empty self cr cc) eqn:He; simpl; [|by eexists].
  apply is_empty_valid in He as [Hr _]. apply IH.
  pose proof (room_step rs cr Hrs Hr). lia.
Qed.

Lemma path_loop_col fuel rs cs cr cc tr tc :
  cs = 1 \/ cs = -1 -> (room cs cc < fuel)%nat ->
  is_Some (path_loop fuel self rs cs cr cc tr tc).
Proof.
  intros Hcs. revert cr cc. induction fuel as [|fuel IH]; intros cr cc Hroom; [lia|].
  simpl. destruct (negb ((cr =? tr) && (cc =? tc))); [|by eexists].
  destruct (is_empty self cr cc) eqn:He; simpl; [|by eexists].
  apply is_empty_valid in He as [_ Hc]. apply IH.
  pose proof (room_step cs cc Hcs Hc). lia.
Qed.

Lemma room_bound step cur : (room step cur < path_fuel)%nat.
Proof. unfold room, path_fuel. repeat case_match; lia. Qed.

Lemma step_toward_cases from to :
  (step_toward from to = 0 /\ to = from)
  \/ step_toward from to = 1 \/ step_toward from to = -1.
Proof. unfold step_toward. repeat case_match; lia. Qed.

(** [_is_path_clear] always returns: the walk started by the code is out
    of its loop within [path_fuel] tests, and more fuel changes nothing. *)
Lemma path_loop_enough from_row from_col to_row to_col fuel :
  (path_fuel <= fuel)%nat ->
  path_loop fuel self (step_toward from_row to_row) (step_toward from_col to_col)
    (from_row + step_toward from_row to_row) (from_col + step_toward from_col to_col)
    to_row to_col
  = Some (_is_path_clear self from_row from_col to_row to_col).
Proof.
  intros Hfuel. unfold _is_path_clear.
  set (rs := step_toward from_row to_row). set (cs := step_toward from_col to_col).
  assert (is_Some (path_loop path_fuel self rs cs (from_row + rs) (from_col + cs)
                     to_row to_col)) as [b Hb].
  { destruct (step_toward_cases from_row to_row) as [[Hr0 Hr]|Hr].
    - destruct (step_toward_cases from_col to_col) as [[Hc0 Hc]|Hc].
      + subst rs cs. rewrite Hr0, Hc0, Hr, Hc. simpl.
        rewrite !Z.add_0_r, !Z.eqb_refl. by eexists.
      + apply path_loop_col; [done|apply room_bound].
    - apply path_loop_row; [done|apply room_bound]. }
  rewrite Hb. eapply path_loop_le; eauto.
Qed.
End PathLoop.

(** ** Running monadic code *)

Section Running.
Context {A B : Type}.
Implicit Types (m : M A) (k : A -> M B) (self : ChessBoard).

Lemma bind_Ok m k self a self' :
  m self = (Ok a, self') -> bind m k self = k a self'.
Proof. unfold bind. by intros ->. Qed.

Lemma bind_Raise m k self e self' :
  m self = (Raise e, self') -> bind m k self = (Raise e, self').
Proof. unfold bind. by intros ->. Qed.

Lemma wp_bind m k (Q : B -> ChessBoard -> Prop) self :
  wp m (fun a self' => wp (k a) Q self') self -> wp (bind m k) Q self.
Proof. unfold wp, bind. by destruct (m self) as [[a|e] self']. Qed.

Lemma wp_mono m (P Q : A -> ChessBoard -> Prop) self :
  (forall a self', P a self' -> Q a self') -> wp m P self -> wp m Q self.
Proof. unfold wp. destruct (m self) as [[a|e] self']; auto. Qed.

Lemma wp_never_raises m (Q : A -> ChessBoard -> Prop) self :
  never_raises m -> (forall a self', Q a self') -> wp m Q self.
Proof. intros Hm HQ. eapply wp_mono; [|apply Hm]. auto. Qed.

Lemma wp_run m (Q : A -> ChessBoard -> Prop) self :
  wp m Q self -> exists a self', m self = (Ok a, self') /\ Q a self'.
Proof. unfold wp. destruct (m self) as [[a|e] self']; [eauto|done]. Qed.

Lemma never_raises_bind m k :
  never_raises m -> (forall a, never_raises (k a)) -> never_raises (bind m k).
Proof.
  intros Hm Hk self. apply wp_bind. apply wp_never_raises; [done|].
  intros a self'. apply Hk.
Qed.
End Running.

Lemma never_raises_ret {A} (a : A) : never_raises (ret a).
Proof. done. Qed.

Lemma never_raises_get_self : never_raises get_self.
Proof. done. Qed.

Lemma never_raises_modify f : never_raises (modify f).
Proof. done. Qed.

Lemma never_raises_when b m : never_raises m -> never_raises (when b m).
Proof. by destruct b. Qed.

Lemma never_raises_set_piece row col piece : never_raises (set_piece row col piece).
Proof. apply never_raises_when, never_raises_modify. Qed.

Lemma never_raises_board_assign row col piece : never_raises (board_assign row col piece).
Proof. apply never_raises_modify. Qed.

Lemma never_raises_relocate_rook row corner dest : never_raises (relocate_rook row corner dest).
Proof.
  apply never_raises_bind; [apply never_raises_get_self|]. intros self.
  apply never_raises_bind; intros; apply never_raises_set_piece.
Qed.

Create HintDb chess.
#[local] Hint Resolve never_raises_ret never_raises_get_self never_raises_modify
  never_raises_when never_raises_set_piece never_raises_board_assign
  never_raises_relocate_rook : chess.

Ltac never_raises_steps :=
  repeat first
    [ apply never_raises_bind; [|intros ?]
    | apply never_raises_when
    | match goal with
      | |- never_raises (match ?x with _ => _ end) => destruct x
      end
    | progress auto with chess ].

Lemma never_raises_make_move_internal from_row from_col to_row to_col :
  never_raises (_make_move_internal from_row from_col to_row to_col).
Proof. unfold _make_move_internal. never_raises_steps. Qed.

Lemma with_board_id self : with_board (board self) self = self.
Proof. by destruct self. Qed.

Lemma set_piece_invalid row col piece self :
  is_valid_position row col = false -> set_piece row col piece self = (Ok tt, self).
Proof. unfold set_piece. by intros ->. Qed.

Lemma set_piece_valid row col piece self :
  is_valid_position row col = true ->
  set_piece row col piece self
  = (Ok tt, with_board (grid_set (board self) row col piece) self).
Proof. unfold set_piece. by intros ->. Qed.

Lemma get_piece_Some self row col p :
  get_piece self row col = Some p ->
  is_valid_position row col = true /\ grid_get (board self) row col = Some p.
Proof. unfold get_piece. by destruct (is_valid_position row col). Qed.

(** ** The attack oracle *)

Lemma _is_valid_move_internal_no_piece self from_row from_col to_row to_col :
  get_piece self from_row from_col = None ->
  _is_valid_move_internal self from_row from_col to_row to_col = Ok false.
Proof. unfold _is_valid_move_internal. by intros ->. Qed.

(** The scan clears the attacker's square before asking for its move, and
    the rule engine then finds no piece to move: the answer is always
    [False].  The square is put back as it was. *)
Lemma can_attack_square_run from_row from_col to_row to_col self :
  can_attack_square from_row from_col to_row to_col self = (Ok false, self).
Proof.
  unfold can_attack_square, bind, get_self, board_assign, modify, lift, ret.
  destruct (get_piece self from_row from_col) as [p|] eqn:Hp; [|done].
  apply get_piece_Some in Hp as [Hvalid Hcell].
  rewrite _is_valid_move_internal_no_piece.
  - simpl. rewrite Hcell, grid_set_restore by done.
    by destruct self.
  - unfold get_piece. rewrite Hvalid. simpl. apply grid_get_set_None.
Qed.

Lemma attack_scan_run sqs row col by_color self :
  attack_scan sqs row col by_color self = (Ok false, self).
Proof.
  induction sqs as [|[r c] rest IH]; [done|].
  simpl. unfold bind at 1. unfold get_self at 1.
  destruct (get_piece self r c) as [piece|]; [|done].
  destruct (Color_eqb (color piece) by_color); [|done].
  erewrite bind_Ok by apply can_attack_square_run. done.
Qed.

Lemma is_square_attacked_run row col by_color self :
  is_square_attacked row col by_color self = (Ok false, self).
Proof. apply attack_scan_run. Qed.

Lemma is_in_check_run c self : is_in_check c self = (Ok false, self).
Proof.
  unfold is_in_check, try_except_ValueError, bind, get_self, lift, get_king_position.
  destruct (find_king self c squares) as [[kr kc]|]; [|done].
  simpl. by rewrite is_square_attacked_run.
Qed.

Lemma PieceType_eqb_eq a b : PieceType_eqb a b = true <-> a = b.
Proof. destruct a, b; simpl; split; congruence. Qed.

Lemma Color_eqb_eq a b : Color_eqb a b = true <-> a = b.
Proof. destruct a, b; simpl; split; congruence. Qed.

(** ** Bounds-guarded accessors *)

(** C10: with the row or the column outside [0,7], [get_piece] returns
    [None] and [set_piece] returns normally with the whole state, hence
    every square of the board, as it was. *)
Theorem accessors_off_board self row col piece :
  ~ (0 <= row < 8 /\ 0 <= col < 8) ->
  get_piece self row col = None
  /\ set_piece row col piece self = (Ok tt, self).
Proof.
  intros Hout%is_valid_position_false. split.
  - unfold get_piece. by rewrite Hout.
  - by apply set_piece_invalid.
Qed.

Lemma accessors_off_board_witness :
  ~ (0 <= -1 < 8 /\ 0 <= 3 < 8)
  /\ get_piece new_ChessBoard (-1) 3 = None
  /\ set_piece (-1) 3 (Some (new_Piece WHITE QUEEN)) new_ChessBoard
     = (Ok tt, new_ChessBoard).
Proof.
  assert (~ (0 <= -1 < 8 /\ 0 <= 3 < 8)) as Hout by lia.
  split; [exact Hout|].
  exact (accessors_off_board new_ChessBoard (-1) 3 (Some (new_Piece WHITE QUEEN)) Hout).
Defined.

(** ** Check detection *)

Lemma find_king_absent self c sqs :
  (forall row col p, get_piece self row col = Some p ->
                     ~ (piece_type p = KING /\ color p = c)) ->
  find_king self c sqs = None.
Proof.
  intros Hno. induction sqs as [|[row col] rest IH]; [done|].
  simpl. destruct (get_piece self row col) as [p|] eqn:Hp; [|done].
  destruct (PieceType_eqb (piece_type p) KING && Color_eqb (color p) c) eqn:Hk; [|done].
  apply andb_prop in Hk as [Ht%PieceType_eqb_eq Hc%Color_eqb_eq].
  by destruct (Hno row col p Hp).
Qed.

(** C9: on a board with no King of the queried color, the search for the
    King raises [ValueError] and [is_in_check] turns it into the answer
    [False]; nothing is raised and the state is as it was. *)
Theorem is_in_check_without_king self c :
  (forall row col p, get_piece self row col = Some p ->
                     ~ (piece_type p = KING /\ color p = c)) ->
  get_king_position self c = Raise ValueError
  /\ is_in_check c self = (Ok false, self).
Proof.
  intros Hno. pose proof (find_king_absent self c squares Hno) as Hfind.
  split.
  - unfold get_king_position. by rewrite Hfind.
  - unfold is_in_check, try_except_ValueError, bind, get_self, lift, get_king_position.
    by rewrite Hfind.
Qed.

Lemma check_scenario_no_black_king row col p :
  get_piece check_scenario row col = Some p ->
  ~ (piece_type p = KING /\ color p = BLACK).
Proof.
  intros [Hv Hp]%get_piece_Some. apply is_valid_position_spec in Hv as [Hr Hc].
  assert (row = 0 \/ row = 1 \/ row = 2 \/ row = 3
          \/ row = 4 \/ row = 5 \/ row = 6 \/ row = 7) as Hrow by lia.
  assert (col = 0 \/ col = 1 \/ col = 2 \/ col = 3
          \/ col = 4 \/ col = 5 \/ col = 6 \/ col = 7) as Hcol by lia.
  intros [Ht Hk].
  repeat (destruct Hrow as [->|Hrow]); try subst row;
    repeat (destruct Hcol as [->|Hcol]); try subst col;
    vm_compute in Hp; simplify_eq; discriminate.
Qed.

Lemma is_in_check_without_king_witness :
  get_king_position check_scenario BLACK = Raise ValueError
  /\ is_in_check BLACK check_scenario = (Ok false, check_scenario).
Proof.
  exact (is_in_check_without_king check_scenario BLACK check_scenario_no_black_king).
Defined.

(** C1: the check scenario of the tests.  The board holds only a White King
    on (4,4) and a Black Queen on (4,0); the squares between them are empty
    and the rule engine accepts the Queen's move onto the King's square.
    Still [is_square_attacked] answers [False] for that square, and
    [is_in_check(WHITE)] returns [False]. *)
Theorem check_scenario_not_detected :
  get_piece check_scenario 4 4 = Some (new_Piece WHITE KING)
  /\ get_piece check_scenario 4 0 = Some (new_Piece BLACK QUEEN)
  /\ only_on check_scenario [(4, 4); (4, 0)] = true
  /\ _is_valid_move_internal check_scenario 4 0 4 4 = Ok true
  /\ is_square_attacked 4 4 BLACK check_scenario = (Ok false, check_scenario)
  /\ is_in_check WHITE check_scenario = (Ok false, check_scenario).
Proof. repeat split; vm_compute; reflexivity. Qed.

(** ** The legality check is a query *)

Lemma is_valid_move_state from_row from_col to_row to_col self :
  snd (is_valid_move from_row from_col to_row to_col self) = self.
Proof.
  unfold is_valid_move, bind, get_self, lift, ret.
  destruct (get_piece self from_row from_col) as [piece|]; [|done].
  destruct (negb (Color_eqb (color piece) (current_turn self))); [done|].
  destruct (_is_valid_move_internal self from_row from_col to_row to_col)
    as [[|]|e]; simpl; [|done..].
  match goal with |- context [fst ?x] => destruct (fst x) as [[|]|e] end; done.
Qed.

(** C6: [is_valid_move] leaves the state it is asked about as it was, for
    either answer: the board with its pieces, the turn and the en-passant
    target (and the move history).  The move is tried on a copy, and the
    attack scan puts back the square it clears. *)
Theorem is_valid_move_is_query self from_row from_col to_row to_col :
  let after := snd (is_valid_move from_row from_col to_row to_col self) in
  board after = board self
  /\ current_turn after = current_turn self
  /\ en_passant_target after = en_passant_target self
  /\ move_history after = move_history self
  /\ (forall r c row col, snd (can_attack_square r c row col self) = self)
  /\ (forall c, snd (is_in_check c self) = self).
Proof.
  simpl. rewrite is_valid_move_state. repeat split.
  - intros. by rewrite can_attack_square_run.
  - intros. by rewrite is_in_check_run.
Qed.

(** ** [make_move] *)

(** C5: a [make_move] that returns [False] leaves the board, the turn, the
    en-passant target and the move history as they were. *)
Theorem make_move_rejected_unchanged self from_row from_col to_row to_col :
  fst (make_move from_row from_col to_row to_col self) = Ok false ->
  snd (make_move from_row from_col to_row to_col self) = self.
Proof.
  unfold make_move, bind, get_self, modify, ret.
  pose proof (is_valid_move_state from_row from_col to_row to_col self) as Hstate.
  destruct (is_valid_move from_row from_col to_row to_col self) as [[[|]|e] self1];
    simpl in *; subst self1.
  - destruct (_make_move_internal from_row from_col to_row to_col self)
      as [[[]|e] self2]; simpl; congruence.
  - done.
  - congruence.
Qed.

Lemma make_move_rejected_unchanged_witness :
  fst (make_move 0 0 1 0 new_ChessBoard) = Ok false
  /\ snd (make_move 0 0 1 0 new_ChessBoard) = new_ChessBoard.
Proof.
  assert (fst (make_move 0 0 1 0 new_ChessBoard) = Ok false) as Hrej by reflexivity.
  split; [exact Hrej|].
  exact (make_move_rejected_unchanged new_ChessBoard 0 0 1 0 Hrej).
Defined.

Lemma _is_valid_move_internal_returns self from_row from_col to_row to_col :
  exists b, _is_valid_move_internal self from_row from_col to_row to_col = Ok b.
Proof.
  unfold _is_valid_move_internal, _is_valid_pawn_move.
  destruct (get_piece self from_row from_col) as [piece|]; [|by eexists].
  repeat case_match; by eexists.
Qed.

Lemma never_raises_is_valid_move from_row from_col to_row to_col :
  never_raises (is_valid_move from_row from_col to_row to_col).
Proof.
  intros self. unfold wp, is_valid_move, bind, get_self, lift, ret.
  destruct (get_piece self from_row from_col) as [piece|]; [|done].
  destruct (negb (Color_eqb (color piece) (current_turn self))); [done|].
  destruct (_is_valid_move_internal_returns self from_row from_col to_row to_col)
    as [[|] ->]; simpl; [|done].
  pose proof (never_raises_make_move_internal from_row from_col to_row to_col self) as Hexec.
  unfold wp in Hexec.
  destruct (_make_move_internal from_row from_col to_row to_col self)
    as [[[]|e] temp_board]; [|done].
  by rewrite is_in_check_run.
Qed.

Lemma never_raises_make_move from_row from_col to_row to_col :
  never_raises (make_move from_row from_col to_row to_col).
Proof.
  unfold make_move.
  apply never_raises_bind; [apply never_raises_is_valid_move|].
  intros valid. destruct (negb valid); [apply never_raises_ret|].
  apply never_raises_bind; [apply never_raises_get_self|]. intros self.
  apply never_raises_bind; [apply never_raises_make_move_internal|]. intros _.
  never_raises_steps.
Qed.

(** With [from] off the board there is no piece to move: the request is
    rejected and nothing changes. *)
Lemma make_move_from_off_board self from_row from_col to_row to_col :
  ~ (0 <= from_row < 8 /\ 0 <= from_col < 8) ->
  is_valid_move from_row from_col to_row to_col self = (Ok false, self)
  /\ make_move from_row from_col to_row to_col self = (Ok false, self).
Proof.
  intros Hout%is_valid_position_false.
  assert (is_valid_move from_row from_col to_row to_col self = (Ok false, self)) as Hv.
  { unfold is_valid_move, bind, get_self, get_piece. by rewrite Hout. }
  split; [done|]. unfold make_move. by erewrite bind_Ok by exact Hv.
Qed.

(** C4: the destination is never tested against the board bounds.  From the
    initial position the knight on (7,1) may "move" to (9,2), off the
    board: [is_valid_move] and [make_move] return [True], the knight is
    gone from the board, the turn has passed to Black and the move is in
    the history. *)
Theorem knight_moves_off_board :
  is_valid_position 9 2 = false
  /\ get_piece new_ChessBoard 7 1 = Some (new_Piece WHITE KNIGHT)
  /\ is_valid_move 7 1 9 2 new_ChessBoard = (Ok true, new_ChessBoard)
  /\ fst (make_move 7 1 9 2 new_ChessBoard) = Ok true
  /\ get_piece (snd (make_move 7 1 9 2 new_ChessBoard)) 7 1 = None
  /\ current_turn (snd (make_move 7 1 9 2 new_ChessBoard)) = BLACK
  /\ move_history (snd (make_move 7 1 9 2 new_ChessBoard))
     = [mkMoveRecord (7, 1) (9, 2) (Piece_str (new_Piece WHITE KNIGHT)) None].
Proof. repeat split; vm_compute; reflexivity. Qed.

(** ** Pawn double step *)

(** The double step is accepted exactly when the pawn is on its start row
    and the destination is empty; the square in between is not looked at. *)
Lemma pawn_double_step_rule self from_row from_col p :
  get_piece self from_row from_col = Some p ->
  let to_row := from_row + 2 * pawn_direction (color p) in
  _is_valid_pawn_move self from_row from_col to_row from_col
  = Ok ((from_row =? pawn_start_row (color p)) && is_empty self to_row from_col).
Proof.
  intros Hp. simpl. unfold _is_valid_pawn_move. rewrite Hp.
  rewrite Z.eqb_refl, Z.sub_diag. simpl.
  assert ((from_row + 2 * pawn_direction (color p)
           =? from_row + pawn_direction (color p)) = false) as ->.
  { apply Z.eqb_neq. destruct (color p); simpl; lia. }
  rewrite Z.eqb_refl.
  destruct (is_empty self _ from_col); simpl;
    destruct (from_row =? pawn_start_row (color p)); done.
Qed.

(** C2: after 1. Nc3 a6 the White knight stands on (5,2), between the pawn
    on its start square (6,2) and the empty square (4,2).  The rule engine
    accepts the pawn's double step over the knight, and so does
    [is_valid_move]. *)
Theorem pawn_double_step_over_piece :
  get_piece knight_before_pawn 6 2 = Some (new_Piece WHITE PAWN)
  /\ get_piece knight_before_pawn 5 2 = Some (mark_moved (new_Piece WHITE KNIGHT))
  /\ is_empty knight_before_pawn 5 2 = false
  /\ is_empty knight_before_pawn 4 2 = true
  /\ _is_valid_pawn_move knight_before_pawn 6 2 4 2 = Ok true
  /\ _is_valid_move_internal knight_before_pawn 6 2 4 2 = Ok true
  /\ is_valid_move 6 2 4 2 knight_before_pawn = (Ok true, knight_before_pawn).
Proof. repeat split; vm_compute; reflexivity. Qed.

(** ** Castling *)

(** The destination row plays no part in [_is_valid_castling]. *)
Lemma _is_valid_castling_any_row self from_row from_col to_row to_row' to_col :
  _is_valid_castling self from_row from_col to_row to_col
  = _is_valid_castling self from_row from_col to_row' to_col.
Proof. reflexivity. Qed.

(** What the rule engine does require of a King move over two columns. *)
Lemma king_two_columns_accepted self from_row from_col to_row to_col :
  Z.abs (to_col - from_col) = 2 ->
  _is_valid_king_move self from_row from_col to_row to_col = true ->
  exists king corner,
    get_piece self from_row from_col = Some king
    /\ piece_type king = KING /\ has_moved king = false
    /\ from_row = home_row (color king)
    /\ ((corner = 7 /\ to_col = from_col + 2) \/ (corner = 0 /\ to_col = from_col - 2))
    /\ unmoved_rook (get_piece self from_row corner) = true
    /\ is_empty self from_row (from_col + (to_col - from_col) / 2) = true
    /\ is_empty self from_row to_col = true.
Proof.
  intros Hcols. unfold _is_valid_king_move. rewrite Hcols.
  replace ((Z.abs (to_row - from_row) <=? 1) && (2 <=? 1)) with false
    by (by rewrite andb_false_r).
  unfold _is_valid_castling.
  destruct (get_piece self from_row from_col) as [king|]; [|done].
  destruct (PieceType_eqb (piece_type king) KING) eqn:Hk; [|done].
  destruct (has_moved king) eqn:Hm; [done|]. simpl.
  apply PieceType_eqb_eq in Hk.
  assert (from_row = home_row (color king) ->
          (to_col =? from_col + 2)
          && (unmoved_rook (get_piece self from_row 7)
              && is_empty self from_row (from_col + 1)
              && is_empty self from_row (from_col + 2))
          || (to_col =? from_col - 2)
             && (unmoved_rook (get_piece self from_row 0)
                 && is_empty self from_row (from_col - 1)
                 && is_empty self from_row (from_col - 2)
                 && is_empty self from_row (from_col - 3)) = true ->
          exists king0 corner,
            Some king = Some king0
            /\ piece_type king0 = KING /\ has_moved king0 = false
            /\ from_row = home_row (color king0)
            /\ ((corner = 7 /\ to_col = from_col + 2) \/ (corner = 0 /\ to_col = from_col - 2))
            /\ unmoved_rook (get_piece self from_row corner) = true
            /\ is_empty self from_row (from_col + (to_col - from_col) / 2) = true
            /\ is_empty self from_row to_col = true) as Hcore.
  { intros Hhome [Hside|Hside]%orb_prop.
    - apply andb_prop in Hside as [Hto%Z.eqb_eq [[Hrook H1]%andb_prop H2]%andb_prop].
      exists king, 7. subst to_col.
      replace (from_col + (from_col + 2 - from_col) / 2) with (from_col + 1)
        by (replace (from_col + 2 - from_col) with 2 by lia; reflexivity).
      repeat split; auto.
    - apply andb_prop in Hside
        as [Hto%Z.eqb_eq [[[Hrook H1]%andb_prop H2]%andb_prop H3]%andb_prop].
      exists king, 0. subst to_col.
      replace (from_col + (from_col - 2 - from_col) / 2) with (from_col - 1)
        by (replace (from_col - 2 - from_col) with (-2) by lia; reflexivity).
      repeat split; auto. }
  destruct (color king) eqn:Hc; simpl in *;
    destruct (Z.eqb_spec from_row 7), (Z.eqb_spec from_row 0); simpl; try done; try lia;
    intros Hacc; apply Hcore; try done;
    repeat (match type of Hacc with
            | (if ?b then _ else _) = true => destruct b eqn:?
            end; simpl in *; try done);
    rewrite ?orb_true_r; auto.
Qed.

(** C3: after 1. Nh3 a6 2. g4 a5 3. Bg2 a4 4. Be4 a3 the unmoved White
    King on (7,4) has the unmoved rook on (7,7) and empty squares between
    them.  The rule engine accepts the King's move to (5,6): two columns
    and two rows away.  [make_move] plays it, taking the rook to (7,5). *)
Theorem king_two_columns_off_its_row :
  get_piece kingside_cleared 7 4 = Some (new_Piece WHITE KING)
  /\ get_piece kingside_cleared 7 7 = Some (new_Piece WHITE ROOK)
  /\ is_empty kingside_cleared 7 5 = true
  /\ is_empty kingside_cleared 7 6 = true
  /\ _is_valid_king_move kingside_cleared 7 4 5 6 = true
  /\ is_valid_move 7 4 5 6 kingside_cleared = (Ok true, kingside_cleared)
  /\ fst (make_move 7 4 5 6 kingside_cleared) = Ok true
  /\ get_piece (snd (make_move 7 4 5 6 kingside_cleared)) 5 6
     = Some (mark_moved (new_Piece WHITE KING))
  /\ get_piece (snd (make_move 7 4 5 6 kingside_cleared)) 7 5
     = Some (new_Piece WHITE ROOK).
Proof. repeat split; vm_compute; reflexivity. Qed.

(** ** The move executor *)

Lemma wp_get_self (Q : ChessBoard -> ChessBoard -> Prop) self :
  Q self self -> wp get_self Q self.
Proof. done. Qed.

Lemma wp_modify f (Q : unit -> ChessBoard -> Prop) self :
  Q tt (f self) -> wp (modify f) Q self.
Proof. done. Qed.

Lemma is_type_mark_moved piece t :
  is_type (option_map mark_moved piece) t = is_type piece t.
Proof. by destruct piece. Qed.

(** The last assignment of [_make_move_internal] decides the target. *)
Lemma _make_move_internal_target self from_row from_col to_row to_col :
  wp (_make_move_internal from_row from_col to_row to_col)
     (fun _ after =>
        en_passant_target after
        = if is_type (get_piece self from_row from_col) PAWN
             && (Z.abs (to_row - from_row) =? 2)
          then Some ((to_row + from_row) / 2, to_col)
          else None)
     self.
Proof.
  unfold _make_move_internal.
  apply wp_bind, wp_get_self.
  do 6 (apply wp_bind, wp_never_raises; [never_raises_steps|intros ? ?]).
  apply wp_modify. by rewrite is_type_mark_moved.
Qed.

(** The two shapes of pawn move the rule engine accepts. *)
Lemma pawn_move_accepted self from_row from_col to_row to_col p :
  get_piece self from_row from_col = Some p ->
  piece_type p = PAWN ->
  _is_valid_move_internal self from_row from_col to_row to_col = Ok true ->
  let direction := pawn_direction (color p) in
  (to_col = from_col
   /\ (to_row = from_row + direction
       \/ (from_row = pawn_start_row (color p) /\ to_row = from_row + 2 * direction)))
  \/ (Z.abs (to_col - from_col) = 1 /\ to_row = from_row + direction).
Proof.
  intros Hp Hpawn. unfold _is_valid_move_internal, _is_valid_pawn_move.
  rewrite Hp, Hpawn. simpl.
  repeat case_match; try discriminate; intros _;
    repeat match goal with
           | H : _ && _ = true |- _ => apply andb_prop in H as [? ?]
           | H : _ || _ = true |- _ => apply orb_prop in H as [?|?]
           | H : (_ =? _) = true |- _ => apply Z.eqb_eq in H
           end; lia.
Qed.

(** C7: after [_make_move_internal] the en-passant target is the square
    midway between [from] and [to] when a Pawn moved over exactly two rows
    (for a move accepted by the rule engine that is a double step within
    one column, forward from the start row), and [None] after any other
    move; the en-passant capture itself, a diagonal step onto the target,
    is such another move. *)
Theorem en_passant_target_after_move self from_row from_col to_row to_col :
  let after := snd (_make_move_internal from_row from_col to_row to_col self) in
  let pawn := is_type (get_piece self from_row from_col) PAWN in
  let middle := (to_row + from_row) / 2 in
  (pawn = true -> Z.abs (to_row - from_row) = 2 ->
     en_passant_target after = Some (middle, to_col)
     /\ middle - from_row = to_row - middle
     /\ (_is_valid_move_internal self from_row from_col to_row to_col = Ok true ->
         to_col = from_col
         /\ forall p, get_piece self from_row from_col = Some p ->
                      from_row = pawn_start_row (color p)
                      /\ to_row = from_row + 2 * pawn_direction (color p)))
  /\ (~ (pawn = true /\ Z.abs (to_row - from_row) = 2) ->
      en_passant_target after = None)
  /\ (pawn = true -> is_en_passant_target self to_row to_col = true ->
      Z.abs (to_col - from_col) = 1 ->
      _is_valid_move_internal self from_row from_col to_row to_col = Ok true ->
      en_passant_target after = None).
Proof.
  simpl.
  pose proof (_make_move_internal_target self from_row from_col to_row to_col) as Hwp.
  apply wp_run in Hwp as (u & after & Hrun & Htarget). rewrite Hrun. simpl.
  rewrite Htarget. clear Hrun Htarget after u.
  assert (forall p, get_piece self from_row from_col = Some p ->
                    piece_type p = PAWN ->
                    _is_valid_move_internal self from_row from_col to_row to_col = Ok true ->
                    Z.abs (to_row - from_row) = 2 ->
                    to_col = from_col
                    /\ from_row = pawn_start_row (color p)
                    /\ to_row = from_row + 2 * pawn_direction (color p)) as Hcolumn.
  { intros p Hp Hpawn Hok Hrows.
    destruct (pawn_move_accepted _ _ _ _ _ _ Hp Hpawn Hok) as [[? [?|[? ?]]]|[_ ?]];
      [|done|]; destruct (color p); simpl in *; lia. }
  assert (forall p, get_piece self from_row from_col = Some p ->
                    piece_type p = PAWN ->
                    _is_valid_move_internal self from_row from_col to_row to_col = Ok true ->
                    Z.abs (to_col - from_col) = 1 ->
                    Z.abs (to_row - from_row) <> 2) as Hdiagonal.
  { intros p Hp Hpawn Hok Hcols.
    destruct (pawn_move_accepted _ _ _ _ _ _ Hp Hpawn Hok) as [[? _]|[_ ?]]; [lia|].
    destruct (color p); simpl in *; lia. }
  destruct (get_piece self from_row from_col) as [p|]; simpl; [|by repeat split].
  split; [|split].
  - intros Hpawn Hrows. rewrite Hpawn. apply PieceType_eqb_eq in Hpawn.
    split; [|split].
    + by apply Z.eqb_eq in Hrows as ->.
    + assert (to_row + from_row = 2 * from_row + 2 \/ to_row + from_row = 2 * from_row - 2)
        as [Hsum|Hsum] by lia; rewrite Hsum.
      * replace (2 * from_row + 2) with ((from_row + 1) * 2) by lia.
        rewrite Z.div_mul by done. lia.
      * replace (2 * from_row - 2) with ((from_row - 1) * 2) by lia.
        rewrite Z.div_mul by done. lia.
    + intros Hok. destruct (Hcolumn p eq_refl Hpawn Hok Hrows) as (? & ? & ?).
      split; [done|]. by intros ? [= <-].
  - intros Hnot. destruct (PieceType_eqb (piece_type p) PAWN); [|done]. simpl.
    destruct (Z.eqb_spec (Z.abs (to_row - from_row)) 2); [|done].
    by destruct Hnot.
  - intros Hpawn _ Hcols Hok. rewrite Hpawn. simpl.
    apply PieceType_eqb_eq in Hpawn.
    destruct (Z.eqb_spec (Z.abs (to_row - from_row)) 2) as [Hrows|]; [|done].
    by destruct (Hdiagonal p eq_refl Hpawn Hok Hcols).
Qed.

Lemma en_passant_target_after_move_witness :
  is_type (get_piece new_ChessBoard 6 4) PAWN = true
  /\ Z.abs (4 - 6) = 2
  /\ en_passant_target (snd (_make_move_internal 6 4 4 4 new_ChessBoard)) = Some (5, 4).
Proof.
  split; [reflexivity|]. split; [reflexivity|].
  exact (proj1 (proj1 (en_passant_target_after_move new_ChessBoard 6 4 4 4)
                  eq_refl eq_refl)).
Defined.

(** The executor's run on an en-passant capture, step by step. *)
Lemma _make_move_internal_en_passant self from_row from_col to_row to_col p :
  get_piece self from_row from_col = Some p ->
  piece_type p = PAWN ->
  en_passant_target self = Some (to_row, to_col) ->
  is_valid_position to_row to_col = true ->
  let behind := captured_pawn_row (mark_moved p) to_row in
  let flagged := grid_set (board self) from_row from_col (Some (mark_moved p)) in
  let captured :=
    if is_valid_position behind to_col then grid_set flagged behind to_col None
    else flagged in
  let moved :=
    grid_set (grid_set captured to_row to_col (Some (mark_moved p)))
             from_row from_col None in
  board (snd (_make_move_internal from_row from_col to_row to_col self)) = moved.
Proof.
  intros Hp Hpawn Htarget Hto. simpl.
  destruct (get_piece_Some _ _ _ _ Hp) as [Hfrom _].
  unfold _make_move_internal, bind, get_self, board_assign, modify, when, ret.
  rewrite Hp. simpl. rewrite Hpawn. simpl.
  unfold is_en_passant_target. simpl. rewrite Htarget, !Z.eqb_refl. simpl.
  unfold set_piece, when, modify, ret.
  destruct (is_valid_position (captured_pawn_row (mark_moved p) to_row) to_col);
    simpl; rewrite Hto, Hfrom; reflexivity.
Qed.

(** When a Pawn moves onto the current en-passant target, the executor
    empties the square one row behind the destination on the mover's side
    (row [to_row + 1] for White, [to_row - 1] for Black), where the pawn
    that double-stepped stands.  The destination then holds the capturing
    pawn, in place of whatever stood there; the origin is vacated and no
    other square changes. *)
Lemma en_passant_capture self from_row from_col to_row to_col p :
  wf_grid (board self) ->
  get_piece self from_row from_col = Some p ->
  piece_type p = PAWN ->
  en_passant_target self = Some (to_row, to_col) ->
  is_valid_position to_row to_col = true ->
  (from_row, from_col) <> (to_row, to_col) ->
  let after := snd (_make_move_internal from_row from_col to_row to_col self) in
  let behind := to_row + match color p with WHITE => 1 | BLACK => -1 end in
  get_piece after behind to_col = None
  /\ get_piece after to_row to_col = Some (mark_moved p)
  /\ get_piece after from_row from_col = None
  /\ (forall row col,
        (row, col) <> (from_row, from_col) -> (row, col) <> (to_row, to_col) ->
        (row, col) <> (behind, to_col) ->
        get_piece after row col = get_piece self row col).
Proof.
  intros Hwf Hp Hpawn Htarget Hto Hmoves. simpl.
  pose proof (_make_move_internal_en_passant _ _ _ _ _ _ Hp Hpawn Htarget Hto) as Hboard.
  simpl in Hboard.
  destruct (get_piece_Some _ _ _ _ Hp) as [Hfrom _].
  assert (captured_pawn_row (mark_moved p) to_row
          = to_row + match color p with WHITE => 1 | BLACK => -1 end) as Hbehind.
  { unfold captured_pawn_row. simpl. by destruct (color p). }
  rewrite Hbehind in Hboard. clear Hbehind.
  set (behind := to_row + match color p with WHITE => 1 | BLACK => -1 end) in *.
  assert (behind <> to_row) as Hrows by (subst behind; destruct (color p); lia).
  set (after := snd (_make_move_internal from_row from_col to_row to_col self)) in *.
  set (flagged := grid_set (board self) from_row from_col (Some (mark_moved p))) in *.
  assert (wf_grid flagged) as Hflagged by by apply grid_set_wf.
  pose proof Hfrom as [[? ?] [? ?]]%is_valid_position_spec.
  pose proof Hto as [[? ?] [? ?]]%is_valid_position_spec.
  unfold get_piece. rewrite Hto, Hfrom, Hboard.
  split; [|split; [|split]].
  - destruct (is_valid_position behind to_col) eqn:Hvalid; [|done].
    apply is_valid_position_spec in Hvalid as [[? ?] [? ?]].
    destruct (decide ((from_row, from_col) = (behind, to_col))) as [[= <- <-]|Hne].
    + apply grid_get_set_None.
    + rewrite !grid_get_set_ne by (done || congruence).
      apply grid_get_set_None.
  - rewrite grid_get_set_ne by done.
    apply grid_get_set_eq; [|done].
    destruct (is_valid_position behind to_col); [by apply grid_set_wf|done].
  - apply grid_get_set_None.
  - intros row col Hnfrom Hnto Hnbehind.
    destruct (is_valid_position row col) eqn:Hvalid; [|done].
    apply is_valid_position_spec in Hvalid as [[? ?] [? ?]].
    rewrite !grid_get_set_ne by done.
    destruct (is_valid_position behind to_col) eqn:Hvalid'.
    + apply is_valid_position_spec in Hvalid' as [[? ?] [? ?]].
      subst flagged. by rewrite !grid_get_set_ne by done.
    + subst flagged. by rewrite grid_get_set_ne by done.
Qed.

Lemma en_passant_ready_wf : wf_grid (board en_passant_ready).
Proof. split; [reflexivity|]. repeat constructor. Qed.

Lemma en_passant_capture_witness :
  get_piece en_passant_ready 3 3 = Some (mark_moved (new_Piece BLACK PAWN))
  /\ get_piece (snd (_make_move_internal 3 4 2 3 en_passant_ready)) 3 3 = None
  /\ get_piece (snd (_make_move_internal 3 4 2 3 en_passant_ready)) 2 3
     = Some (mark_moved (new_Piece WHITE PAWN)).
Proof.
  split; [reflexivity|].
  assert ((3, 4) <> (2, 3)) as Hmoves by discriminate.
  pose proof (en_passant_capture en_passant_ready 3 4 2 3
                (mark_moved (new_Piece WHITE PAWN))
                en_passant_ready_wf eq_refl eq_refl eq_refl eq_refl Hmoves)
    as (Hbehind & Hto & _).
  split; [exact Hbehind|exact Hto].
Defined.

(** C8: the position after 1. Nc3 d5 2. a3 d4 3. c4, all accepted by
    [make_move].  The White pawn has double-stepped over the knight, so the
    en-passant target (5,2) holds the knight.  The Black pawn's move from
    (4,3) onto the target is accepted; the executor empties (4,2), one row
    behind the destination on Black's side, and the pawn takes the place of
    the knight: a piece is removed from the destination square as well. *)
Theorem en_passant_capture_removes_destination_piece :
  fst (play [(7, 1, 5, 2); (1, 3, 3, 3); (6, 0, 5, 0); (3, 3, 4, 3); (6, 2, 4, 2)]
         new_ChessBoard) = Ok true
  /\ en_passant_target knight_on_target = Some (5, 2)
  /\ get_piece knight_on_target 4 3 = Some (mark_moved (new_Piece BLACK PAWN))
  /\ get_piece knight_on_target 4 2 = Some (mark_moved (new_Piece WHITE PAWN))
  /\ get_piece knight_on_target 5 2 = Some (mark_moved (new_Piece WHITE KNIGHT))
  /\ is_valid_move 4 3 5 2 knight_on_target = (Ok true, knight_on_target)
  /\ fst (make_move 4 3 5 2 knight_on_target) = Ok true
  /\ get_piece (snd (_make_move_internal 4 3 5 2 knight_on_target)) 4 2 = None
  /\ get_piece (snd (_make_move_internal 4 3 5 2 knight_on_target)) 5 2
     = Some (mark_moved (new_Piece BLACK PAWN))
  /\ existsb (fun '(row, col) =>
                match get_piece (snd (_make_move_internal 4 3 5 2 knight_on_target))
                        row col with
                | Some p => PieceType_eqb (piece_type p) KNIGHT
                            && Color_eqb (color p) WHITE && has_moved p
                | None => false
                end) squares = false.
Proof. repeat split; vm_compute; reflexivity. Qed.

(** * Further properties of the engine *)

(** ** Squares *)

(** X1: on the 8x8 grid, [set_piece] on a board square followed by
    [get_piece] gives back what was set; every other square, the turn, the
    en-passant target and the history are as before. *)
Theorem set_piece_get_piece self row col piece :
  wf_grid (board self) ->
  0 <= row < 8 /\ 0 <= col < 8 ->
  let after := snd (set_piece row col piece self) in
  fst (set_piece row col piece self) = Ok tt
  /\ get_piece after row col = piece
  /\ (forall row' col', (row', col') <> (row, col) ->
                        get_piece after row' col' = get_piece self row' col')
  /\ wf_grid (board after)
  /\ current_turn after = current_turn self
  /\ en_passant_target after = en_passant_target self
  /\ move_history after = move_history self.
Proof.
  intros Hwf Hpos. pose proof Hpos as [[? ?] [? ?]].
  apply is_valid_position_spec in Hpos. simpl.
  rewrite set_piece_valid by done. simpl.
  split; [done|]. split; [|split; [|split; [|done]]].
  - unfold get_piece. rewrite Hpos. simpl. by apply grid_get_set_eq.
  - intros row' col' Hne. unfold get_piece.
    destruct (is_valid_position row' col') eqn:Hpos'; [|done].
    apply is_valid_position_spec in Hpos' as [[? ?] [? ?]]. simpl.
    apply grid_get_set_ne; (done || congruence).
  - by apply grid_set_wf.
Qed.

Lemma set_piece_get_piece_witness :
  get_piece (snd (set_piece 4 4 (Some (new_Piece WHITE QUEEN)) new_ChessBoard)) 4 4
  = Some (new_Piece WHITE QUEEN).
Proof.
  assert (0 <= 4 < 8 /\ 0 <= 4 < 8) as Hpos by lia.
  exact (proj1 (proj2 (set_piece_get_piece new_ChessBoard 4 4
                         (Some (new_Piece WHITE QUEEN)) new_ChessBoard_wf Hpos))).
Defined.

(** X2: a board square is empty, held by the given color, or held by its
    opponent, and exactly one of the three; a square off the board is none
    of them: [is_empty] is [False] there although [get_piece] is [None]. *)
Theorem square_classification self row col c :
  (0 <= row < 8 /\ 0 <= col < 8 ->
   (is_empty self row col = true <-> get_piece self row col = None)
   /\ (is_empty self row col = true
       /\ is_occupied_by_color self row col c = false
       /\ is_occupied_by_opponent self row col c = false
       \/ is_empty self row col = false
          /\ is_occupied_by_color self row col c = true
          /\ is_occupied_by_opponent self row col c = false
       \/ is_empty self row col = false
          /\ is_occupied_by_color self row col c = false
          /\ is_occupied_by_opponent self row col c = true))
  /\ (~ (0 <= row < 8 /\ 0 <= col < 8) ->
      get_piece self row col = None
      /\ is_empty self row col = false
      /\ is_occupied_by_color self row col c = false
      /\ is_occupied_by_opponent self row col c = false).
Proof.
  unfold is_empty, is_occupied_by_color, is_occupied_by_opponent, get_piece. split.
  - intros ->%is_valid_position_spec. simpl.
    destruct (grid_get (board self) row col) as [p|]; simpl.
    + split; [split; discriminate|].
      destruct (Color_eqb (color p) c); simpl; auto.
    + split; [done|]. by left.
  - by intros ->%is_valid_position_false.
Qed.

Lemma square_classification_witness :
  is_empty new_ChessBoard 8 0 = false /\ get_piece new_ChessBoard 8 0 = None.
Proof.
  assert (~ (0 <= 8 < 8 /\ 0 <= 0 < 8)) as Hout by lia.
  destruct (proj2 (square_classification new_ChessBoard 8 0 WHITE) Hout)
    as (Hget & Hempty & _).
  split; [exact Hempty|exact Hget].
Defined.

(** ** Finding the King *)

Lemma find_king_sound self c sqs row col :
  find_king self c sqs = Some (row, col) ->
  In (row, col) sqs
  /\ exists p, get_piece self row col = Some p /\ piece_type p = KING /\ color p = c.
Proof.
  induction sqs as [|[r k] rest IH]; [done|]. simpl.
  destruct (get_piece self r k) as [p|] eqn:Hp.
  - destruct (PieceType_eqb (piece_type p) KING && Color_eqb (color p) c) eqn:Hk.
    + intros [= <- <-]. apply andb_prop in Hk as [?%PieceType_eqb_eq ?%Color_eqb_eq].
      split; [by left|eauto].
    + intros [? ?]%IH. split; [by right|done].
  - intros [? ?]%IH. split; [by right|done].
Qed.

Lemma find_king_None self c sqs row col p :
  find_king self c sqs = None -> In (row, col) sqs ->
  get_piece self row col = Some p -> ~ (piece_type p = KING /\ color p = c).
Proof.
  induction sqs as [|[r k] rest IH]; [done|]. simpl.
  intros Hfind [[= -> ->]|Hin] Hp.
  - rewrite Hp in Hfind.
    destruct (PieceType_eqb (piece_type p) KING && Color_eqb (color p) c) eqn:Hk; [done|].
    intros [Ht Hc]. apply PieceType_eqb_eq in Ht. apply Color_eqb_eq in Hc.
    by rewrite Ht, Hc in Hk.
  - apply IH; [|done..].
    destruct (get_piece self r k) as [q|]; [|done].
    by destruct (PieceType_eqb (piece_type q) KING && Color_eqb (color q) c).
Qed.

Lemma In_squares row col : In (row, col) squares <-> (0 <= row < 8 /\ 0 <= col < 8).
Proof.
  unfold squares. rewrite in_flat_map. split.
  - intros (r & Hr & Hin). apply in_map_iff in Hin as (k & [= <- <-] & Hk).
    unfold range in *. apply in_map_iff in Hr as (i & <- & Hi%in_seq).
    apply in_map_iff in Hk as (j & <- & Hj%in_seq). lia.
  - intros [Hr Hc]. exists row. split.
    + unfold range. apply in_map_iff. exists (Z.to_nat row).
      split; [lia|apply in_seq; lia].
    + apply in_map_iff. exists col. split; [done|].
      unfold range. apply in_map_iff. exists (Z.to_nat col).
      split; [lia|apply in_seq; lia].
Qed.

(** X3: [get_king_position] returns a board square that holds a King of the
    queried color, and raises [ValueError] exactly when the board holds no
    such King; it raises nothing else. *)
Theorem get_king_position_correct self c :
  match get_king_position self c with
  | Ok (row, col) =>
      (0 <= row < 8 /\ 0 <= col < 8)
      /\ exists p, get_piece self row col = Some p /\ piece_type p = KING /\ color p = c
  | Raise e => e = ValueError /\ no_king self c
  end.
Proof.
  unfold get_king_position.
  destruct (find_king self c squares) as [[row col]|] eqn:Hfind.
  - apply find_king_sound in Hfind as [Hin ?]. split; [by apply In_squares|done].
  - split; [done|]. intros row col p Hp.
    eapply find_king_None; [done| |done].
    apply In_squares, is_valid_position_spec. by apply get_piece_Some in Hp as [? _].
Qed.

(** ** The attack oracle and the legality check *)

(** X4: [can_attack_square], [is_square_attacked] and [is_in_check] answer
    [False] on every board, for every square and color, raise nothing and
    leave the state as it was. *)
Theorem attack_oracle_always_false self :
  (forall from_row from_col to_row to_col,
      can_attack_square from_row from_col to_row to_col self = (Ok false, self))
  /\ (forall row col by_color,
         is_square_attacked row col by_color self = (Ok false, self))
  /\ (forall c, is_in_check c self = (Ok false, self)).
Proof.
  split; [|split]; intros.
  - apply can_attack_square_run.
  - apply is_square_attacked_run.
  - apply is_in_check_run.
Qed.

Lemma is_valid_move_run self from_row from_col to_row to_col :
  is_valid_move from_row from_col to_row to_col self
  = (match get_piece self from_row from_col with
     | Some piece =>
         if Color_eqb (color piece) (current_turn self)
         then _is_valid_move_internal self from_row from_col to_row to_col
         else Ok false
     | None => Ok false
     end, self).
Proof.
  unfold is_valid_move, bind, get_self, lift, ret.
  destruct (get_piece self from_row from_col) as [piece|]; [|done].
  destruct (Color_eqb (color piece) (current_turn self)); [|done]. simpl.
  destruct (_is_valid_move_internal self from_row from_col to_row to_col)
    as [[|]|e]; simpl; [|done..].
  pose proof (never_raises_make_move_internal from_row from_col to_row to_col self) as Hexec.
  unfold wp in Hexec.
  destruct (_make_move_internal from_row from_col to_row to_col self)
    as [[[]|e] temp_board]; [|done].
  by rewrite is_in_check_run.
Qed.

Lemma is_valid_move_iff_shape_aux self from_row from_col to_row to_col :
  fst (is_valid_move from_row from_col to_row to_col self) = Ok true
  <-> exists piece,
        get_piece self from_row from_col = Some piece
        /\ Color_eqb (color piece) (current_turn self) = true
        /\ _is_valid_move_internal self from_row from_col to_row to_col = Ok true.
Proof.
  rewrite is_valid_move_run. simpl. split.
  - destruct (get_piece self from_row from_col) as [piece|]; [|done].
    destruct (Color_eqb (color piece) (current_turn self)) eqn:Hc; [|done]. eauto.
  - by intros (piece & -> & -> & Hshape).
Qed.

(** X5: [is_valid_move] answers [True] exactly when [from] holds a piece of
    the color to move and the rule engine accepts the move: the test for
    moving into check never rejects anything. *)
Theorem is_valid_move_iff_shape self from_row from_col to_row to_col :
  fst (is_valid_move from_row from_col to_row to_col self) = Ok true
  <-> exists piece,
        get_piece self from_row from_col = Some piece
        /\ color piece = current_turn self
        /\ _is_valid_move_internal self from_row from_col to_row to_col = Ok true.
Proof.
  rewrite is_valid_move_iff_shape_aux.
  split; intros (piece & ? & ?%Color_eqb_eq & ?); eauto.
Qed.

(** X6: [is_valid_move] and [make_move] return a boolean for every state
    and all integer coordinates; neither raises. *)
Theorem make_move_never_raises self from_row from_col to_row to_col :
  (exists valid, is_valid_move from_row from_col to_row to_col self = (Ok valid, self))
  /\ (exists done after,
         make_move from_row from_col to_row to_col self = (Ok done, after)).
Proof.
  split.
  - pose proof (never_raises_is_valid_move from_row from_col to_row to_col self) as Hv.
    apply wp_run in Hv as (valid & after & Hrun & _).
    pose proof (is_valid_move_state from_row from_col to_row to_col self) as Hstate.
    rewrite Hrun in Hstate. simpl in Hstate. subst after. eauto.
  - pose proof (never_raises_make_move from_row from_col to_row to_col self) as Hm.
    apply wp_run in Hm as (done & after & Hrun & _). eauto.
Qed.

(** ** Checkmate, stalemate and the list of valid moves *)

Lemma is_valid_move_accepted self from_row from_col to_row to_col :
  is_valid_move from_row from_col to_row to_col self
  = (Ok (accepted self from_row from_col to_row to_col), self).
Proof.
  unfold accepted.
  pose proof (never_raises_is_valid_move from_row from_col to_row to_col self) as Hv.
  apply wp_run in Hv as (valid & after & Hrun & _).
  pose proof (is_valid_move_state from_row from_col to_row to_col self) as Hstate.
  rewrite Hrun in *. simpl in *. by subst after.
Qed.

Lemma accepted_true self from_row from_col to_row to_col :
  accepted self from_row from_col to_row to_col = true
  <-> fst (is_valid_move from_row from_col to_row to_col self) = Ok true.
Proof.
  rewrite is_valid_move_accepted. simpl. split; [by intros ->|by intros [= ->]].
Qed.

Lemma accepted_own_piece self from_row from_col to_row to_col :
  accepted self from_row from_col to_row to_col = true ->
  is_occupied_by_color self from_row from_col (current_turn self) = true.
Proof.
  intros (piece & Hp & Hc & _)%accepted_true%is_valid_move_iff_shape_aux.
  unfold is_occupied_by_color. by rewrite Hp.
Qed.

Lemma some_valid_destination_run self from_row from_col dests :
  some_valid_destination from_row from_col dests self
  = (Ok (existsb (fun '(to_row, to_col) =>
                    accepted self from_row from_col to_row to_col) dests), self).
Proof.
  induction dests as [|[to_row to_col] rest IH]; [done|]. simpl.
  erewrite bind_Ok by apply is_valid_move_accepted.
  by destruct (accepted self from_row from_col to_row to_col).
Qed.

Lemma some_valid_move_run self c origins :
  some_valid_move c origins self
  = (Ok (existsb (fun '(from_row, from_col) =>
                    is_occupied_by_color self from_row from_col c
                    && existsb (fun '(to_row, to_col) =>
                                  accepted self from_row from_col to_row to_col) squares)
                 origins), self).
Proof.
  induction origins as [|[from_row from_col] rest IH]; [done|].
  cbn [some_valid_move existsb].
  unfold bind at 1, get_self at 1, is_occupied_by_color.
  destruct (get_piece self from_row from_col) as [piece|]; [|done].
  destruct (Color_eqb (color piece) c); [|done]. cbn [andb].
  erewrite bind_Ok by apply some_valid_destination_run.
  by destruct (existsb _ squares).
Qed.

Lemma valid_destinations_run self from_row from_col dests :
  valid_destinations from_row from_col dests self
  = (Ok (map (fun '(to_row, to_col) => (from_row, from_col, to_row, to_col))
             (List.filter (fun '(to_row, to_col) =>
                             accepted self from_row from_col to_row to_col) dests)),
     self).
Proof.
  induction dests as [|[to_row to_col] rest IH]; [done|]. simpl.
  erewrite bind_Ok by apply is_valid_move_accepted.
  erewrite bind_Ok by apply IH.
  by destruct (accepted self from_row from_col to_row to_col).
Qed.

Lemma valid_moves_from_run self c origins :
  valid_moves_from c origins self
  = (Ok (flat_map
           (fun '(from_row, from_col) =>
              if is_occupied_by_color self from_row from_col c
              then map (fun '(to_row, to_col) => (from_row, from_col, to_row, to_col))
                       (List.filter (fun '(to_row, to_col) =>
                                       accepted self from_row from_col to_row to_col)
                                    squares)
              else [])
           origins), self).
Proof.
  induction origins as [|[from_row from_col] rest IH]; [done|].
  cbn [valid_moves_from flat_map].
  unfold bind at 1, get_self at 1, is_occupied_by_color.
  destruct (get_piece self from_row from_col) as [piece|]; [|done].
  destruct (Color_eqb (color piece) c); [|done].
  erewrite bind_Ok by apply valid_destinations_run.
  by erewrite bind_Ok by apply IH.
Qed.

Lemma In_valid_moves self c origins from_row from_col to_row to_col :
  In (from_row, from_col, to_row, to_col)
     (flat_map
        (fun '(from_row, from_col) =>
           if is_occupied_by_color self from_row from_col c
           then map (fun '(to_row, to_col) => (from_row, from_col, to_row, to_col))
                    (List.filter (fun '(to_row, to_col) =>
                                    accepted self from_row from_col to_row to_col)
                                 squares)
           else [])
        origins)
  <-> In (from_row, from_col) origins
      /\ In (to_row, to_col) squares
      /\ is_occupied_by_color self from_row from_col c = true
      /\ accepted self from_row from_col to_row to_col = true.
Proof.
  rewrite in_flat_map. split.
  - intros ([fr fc] & Hin & Hmove).
    destruct (is_occupied_by_color self fr fc c) eqn:Hocc; [|done].
    apply in_map_iff in Hmove as ([tr tc] & [= -> -> -> ->] & Hto).
    apply filter_In in Hto as [? ?]. done.
  - intros (Hin & Hto & Hocc & Hacc). exists (from_row, from_col).
    split; [done|]. rewrite Hocc. apply in_map_iff. exists (to_row, to_col).
    split; [done|]. by apply filter_In.
Qed.

(** X7: [is_checkmate] returns [False] for every board and color, since
    [is_in_check] never reports a check; the state is left as it was. *)
Theorem is_checkmate_never self c : is_checkmate c self = (Ok false, self).
Proof.
  unfold is_checkmate. by erewrite bind_Ok by apply is_in_check_run.
Qed.

(** X8: [get_all_valid_moves] leaves the state as it was and returns the
    moves that start on a board square held by the given color, end on a
    board square and pass [is_valid_move], and only those.  Destinations off
    the board, which [is_valid_move] may accept, are never listed. *)
Theorem get_all_valid_moves_spec self c :
  exists moves,
    get_all_valid_moves c self = (Ok moves, self)
    /\ forall from_row from_col to_row to_col,
         In (from_row, from_col, to_row, to_col) moves
         <-> (0 <= from_row < 8 /\ 0 <= from_col < 8)
             /\ (0 <= to_row < 8 /\ 0 <= to_col < 8)
             /\ is_occupied_by_color self from_row from_col c = true
             /\ fst (is_valid_move from_row from_col to_row to_col self) = Ok true.
Proof.
  eexists. split; [apply valid_moves_from_run|].
  intros. by rewrite In_valid_moves, !In_squares, accepted_true.
Qed.

Lemma existsb_valid_moves self c :
  existsb (fun '(from_row, from_col) =>
             is_occupied_by_color self from_row from_col c
             && existsb (fun '(to_row, to_col) =>
                           accepted self from_row from_col to_row to_col) squares)
          squares = false
  <-> flat_map
        (fun '(from_row, from_col) =>
           if is_occupied_by_color self from_row from_col c
           then map (fun '(to_row, to_col) => (from_row, from_col, to_row, to_col))
                    (List.filter (fun '(to_row, to_col) =>
                                    accepted self from_row from_col to_row to_col)
                                 squares)
           else [])
        squares = [].
Proof.
  split.
  - intros Hnone.
    match goal with |- ?l = [] => destruct l as [|[[[fr fc] tr] tc] rest] eqn:Hl end;
      [done|].
    assert (In (fr, fc, tr, tc) ((fr, fc, tr, tc) :: rest)) as Hin by by left.
    rewrite <- Hl in Hin. apply In_valid_moves in Hin as (Hfrom & Hto & Hocc & Hacc).
    assert (existsb (fun '(from_row, from_col) =>
             is_occupied_by_color self from_row from_col c
             && existsb (fun '(to_row, to_col) =>
                           accepted self from_row from_col to_row to_col) squares)
          squares = true) as Hsome; [|congruence].
    apply existsb_exists. exists (fr, fc). split; [done|]. rewrite Hocc.
    cbn [andb]. apply existsb_exists. by exists (tr, tc).
  - intros Hempty. apply not_true_is_false.
    intros ([fr fc] & Hfrom & [Hocc ([tr tc] & Hto & Hacc)%existsb_exists]%andb_prop)%existsb_exists.
    assert (In (fr, fc, tr, tc) []) as []. rewrite <- Hempty.
    by apply In_valid_moves.
Qed.

Lemma Ok_inj {A} (a b : A) : Ok a = Ok b -> a = b.
Proof. by intros [= ->]. Qed.

Lemma Some_inj {A} (a b : A) : Some a = Some b -> a = b.
Proof. by intros [= ->]. Qed.

Lemma is_stalemate_run self c :
  is_stalemate c self
  = (Ok (negb (existsb (fun '(from_row, from_col) =>
                          is_occupied_by_color self from_row from_col c
                          && existsb (fun '(to_row, to_col) =>
                                        accepted self from_row from_col to_row to_col)
                                     squares)
                       squares)), self).
Proof.
  unfold is_stalemate.
  erewrite bind_Ok by apply is_in_check_run. cbv beta iota.
  erewrite bind_Ok by apply some_valid_move_run.
  by destruct (existsb _ squares).
Qed.

(** X9: [is_stalemate] answers [True] exactly when [get_all_valid_moves]
    returns the empty list for that color; it leaves the state as it was. *)
Theorem is_stalemate_iff_no_moves self c :
  snd (is_stalemate c self) = self
  /\ (fst (is_stalemate c self) = Ok true
      <-> fst (get_all_valid_moves c self) = Ok []).
Proof.
  rewrite is_stalemate_run. unfold get_all_valid_moves.
  rewrite valid_moves_from_run. cbn [fst snd].
  pose proof (existsb_valid_moves self c) as Hiff.
  destruct (existsb _ squares); cbn [negb].
  - split; [reflexivity|]. split; [discriminate|].
    intros Hempty%Ok_inj. by apply Hiff in Hempty.
  - split; [reflexivity|]. split; [|reflexivity].
    intros _. f_equal. by apply Hiff.
Qed.

(** X10: for the color that is not to move, [get_all_valid_moves] is empty
    and [is_stalemate] answers [True], whatever the position. *)
Theorem off_turn_color_has_no_moves self c :
  c <> current_turn self ->
  get_all_valid_moves c self = (Ok [], self)
  /\ is_stalemate c self = (Ok true, self).
Proof.
  intros Hturn.
  assert (existsb (fun '(from_row, from_col) =>
             is_occupied_by_color self from_row from_col c
             && existsb (fun '(to_row, to_col) =>
                           accepted self from_row from_col to_row to_col) squares)
          squares = false) as Hnone.
  { apply not_true_is_false.
    intros ([fr fc] & _ & [Hocc ([tr tc] & _ & Hacc)%existsb_exists]%andb_prop)%existsb_exists.
    apply accepted_own_piece in Hacc. unfold is_occupied_by_color in *.
    destruct (get_piece self fr fc) as [p|]; [|done].
    apply Color_eqb_eq in Hocc, Hacc. congruence. }
  split.
  - unfold get_all_valid_moves. rewrite valid_moves_from_run.
    f_equal. f_equal. by apply existsb_valid_moves.
  - by rewrite is_stalemate_run, Hnone.
Qed.

Lemma off_turn_color_has_no_moves_witness :
  BLACK <> current_turn new_ChessBoard
  /\ get_all_valid_moves BLACK new_ChessBoard = (Ok [], new_ChessBoard)
  /\ is_stalemate BLACK new_ChessBoard = (Ok true, new_ChessBoard).
Proof.
  assert (BLACK <> current_turn new_ChessBoard) as Hturn by discriminate.
  split; [exact Hturn|].
  exact (off_turn_color_has_no_moves new_ChessBoard BLACK Hturn).
Defined.

(** ** Invariants of the executor and of [make_move] *)

Section Preserves.
Variable P : ChessBoard -> Prop.

Lemma preserves_ret {A} (a : A) : preserves P (ret a).
Proof. by intros self HP. Qed.

Lemma preserves_get_self : preserves P get_self.
Proof. by intros self HP. Qed.

Lemma preserves_bind {A B} (m : M A) (k : A -> M B) :
  preserves P m -> (forall a, preserves P (k a)) -> preserves P (bind m k).
Proof.
  intros Hm Hk self HP. apply wp_bind.
  eapply wp_mono; [|by apply Hm]. intros a self' HP'. by apply Hk.
Qed.

Lemma preserves_when b m : preserves P m -> preserves P (when b m).
Proof. destruct b; [done|]. intros _. apply preserves_ret. Qed.

Lemma preserves_modify f :
  (forall self, P self -> P (f self)) -> preserves P (modify f).
Proof. intros Hf self HP. by apply wp_modify, Hf. Qed.

Lemma preserves_is_valid_move from_row from_col to_row to_col :
  preserves P (is_valid_move from_row from_col to_row to_col).
Proof. intros self HP. unfold wp. by rewrite is_valid_move_accepted. Qed.

Lemma preserves_run {A} (m : M A) self :
  preserves P m -> P self -> exists a after, m self = (Ok a, after) /\ P after.
Proof. intros Hm HP. by apply wp_run, Hm. Qed.
End Preserves.

Ltac preserves_steps :=
  unfold relocate_rook; unfold set_piece, board_assign;
  repeat match goal with
         | |- preserves _ (bind _ _) => apply preserves_bind; [|intros ?]
         | |- preserves _ (when _ _) => apply preserves_when
         | |- preserves _ get_self => apply preserves_get_self
         | |- preserves _ (ret _) => apply preserves_ret
         | |- preserves _ (match ?x with _ => _ end) => destruct x
         end.

(** The executor touches the grid cell by cell and never the turn or the
    history. *)
Lemma preserves_make_move_internal P from_row from_col to_row to_col :
  (forall self row col piece,
      P self -> P (with_board (grid_set (board self) row col piece) self)) ->
  (forall self target, P self -> P (with_en_passant_target target self)) ->
  preserves P (_make_move_internal from_row from_col to_row to_col).
Proof.
  intros Hcell Htarget. unfold _make_move_internal. preserves_steps.
  all: apply preserves_modify; intros; auto.
Qed.

Lemma preserves_wf_make_move_internal from_row from_col to_row to_col :
  preserves (fun self => wf_grid (board self))
            (_make_move_internal from_row from_col to_row to_col).
Proof.
  apply preserves_make_move_internal; [|done].
  intros. by apply grid_set_wf.
Qed.

Lemma preserves_wf_make_move from_row from_col to_row to_col :
  preserves (fun self => wf_grid (board self))
            (make_move from_row from_col to_row to_col).
Proof.
  unfold make_move.
  apply preserves_bind; [apply preserves_is_valid_move|]. intros valid.
  destruct (negb valid); [apply preserves_ret|].
  apply preserves_bind; [apply preserves_get_self|]. intros self0.
  apply preserves_bind; [apply preserves_wf_make_move_internal|]. intros _.
  preserves_steps. all: by apply preserves_modify.
Qed.

(** X11: the 8x8 shape of the grid is an invariant: [_make_move_internal]
    and [make_move] (accepted or not) return normally and keep it, for all
    coordinates. *)
Theorem grid_shape_invariant self from_row from_col to_row to_col :
  wf_grid (board self) ->
  (exists after,
      _make_move_internal from_row from_col to_row to_col self = (Ok tt, after)
      /\ wf_grid (board after))
  /\ (exists done after,
         make_move from_row from_col to_row to_col self = (Ok done, after)
         /\ wf_grid (board after)).
Proof.
  intros Hwf. split.
  - destruct (preserves_run _ _ self
                (preserves_wf_make_move_internal from_row from_col to_row to_col) Hwf)
      as ([] & after & ? & ?). eauto.
  - exact (preserves_run _ _ self
             (preserves_wf_make_move from_row from_col to_row to_col) Hwf).
Qed.

Lemma grid_shape_invariant_witness :
  wf_grid (board new_ChessBoard)
  /\ exists done after,
       make_move 7 1 9 2 new_ChessBoard = (Ok done, after) /\ wf_grid (board after).
Proof.
  split; [exact new_ChessBoard_wf|].
  exact (proj2 (grid_shape_invariant new_ChessBoard 7 1 9 2 new_ChessBoard_wf)).
Defined.

Lemma preserves_turn_history_make_move_internal t h from_row from_col to_row to_col :
  preserves (fun self => current_turn self = t /\ move_history self = h)
            (_make_move_internal from_row from_col to_row to_col).
Proof. by apply preserves_make_move_internal. Qed.

(** X12: a [make_move] that returns [True] was accepted by [is_valid_move],
    passes the turn to the other color exactly once and appends exactly one
    record to the history: the two squares, the symbol of the piece that
    stood on [from] and that of the piece that stood on [to], if any. *)
Theorem make_move_accepted_bookkeeping self from_row from_col to_row to_col :
  fst (make_move from_row from_col to_row to_col self) = Ok true ->
  let after := snd (make_move from_row from_col to_row to_col self) in
  fst (is_valid_move from_row from_col to_row to_col self) = Ok true
  /\ current_turn after = opposite (current_turn self)
  /\ exists piece,
       get_piece self from_row from_col = Some piece
       /\ color piece = current_turn self
       /\ move_history after
          = move_history self
            ++ [mkMoveRecord (from_row, from_col) (to_row, to_col) (Piece_str piece)
                  (option_map Piece_str (get_piece self to_row to_col))].
Proof.
  unfold make_move.
  erewrite bind_Ok by apply is_valid_move_accepted.
  destruct (accepted self from_row from_col to_row to_col) eqn:Hacc; [|discriminate].
  apply accepted_true in Hacc. intros _. cbn [negb].
  destruct (preserves_run _ _ self
              (preserves_turn_history_make_move_internal
                 (current_turn self) (move_history self)
                 from_row from_col to_row to_col)
              (conj eq_refl eq_refl))
    as ([] & after & Hrun & Hturn & Hhistory).
  unfold bind, get_self, modify, ret. rewrite Hrun.
  cbn [fst snd current_turn move_history with_current_turn with_move_history].
  split; [done|]. split; [by rewrite Hturn|].
  apply is_valid_move_iff_shape_aux in Hacc as (piece & Hp & Hc%Color_eqb_eq & _).
  exists piece. by rewrite Hp, Hhistory.
Qed.

Lemma make_move_accepted_bookkeeping_witness :
  fst (make_move 6 4 4 4 new_ChessBoard) = Ok true
  /\ current_turn (snd (make_move 6 4 4 4 new_ChessBoard)) = BLACK.
Proof.
  assert (fst (make_move 6 4 4 4 new_ChessBoard) = Ok true) as Hok by reflexivity.
  split; [exact Hok|].
  exact (proj1 (proj2 (make_move_accepted_bookkeeping new_ChessBoard 6 4 4 4 Hok))).
Defined.

(** ** What the executor leaves on the board *)

Lemma wp_bind_wf {A B} (m : M A) (k : A -> M B) (Q : B -> ChessBoard -> Prop) self :
  preserves (fun s => wf_grid (board s)) m ->
  wf_grid (board self) ->
  (forall a self', wf_grid (board self') -> wp (k a) Q self') ->
  wp (bind m k) Q self.
Proof.
  intros Hm Hwf Hk. apply wp_bind. eapply wp_mono; [|by apply Hm]. exact Hk.
Qed.

Ltac preserves_wf :=
  preserves_steps; apply preserves_modify; intros; by apply grid_set_wf.

(** The last three steps of the executor: place on [to], vacate [from], set
    the target. *)
Lemma executor_tail self from_row from_col to_row to_col piece target :
  wf_grid (board self) ->
  is_valid_position from_row from_col = true ->
  is_valid_position to_row to_col = true ->
  (from_row, from_col) <> (to_row, to_col) ->
  wp (set_piece to_row to_col piece ;;;
      set_piece from_row from_col None ;;;
      modify (with_en_passant_target target))
     (fun _ after =>
        get_piece after to_row to_col = piece
        /\ get_piece after from_row from_col = None)
     self.
Proof.
  intros Hwf Hfrom Hto Hne.
  unfold wp, bind, modify. rewrite !set_piece_valid by done.
  cbn [board with_board with_en_passant_target]. unfold get_piece.
  rewrite Hfrom, Hto. cbn [board with_board with_en_passant_target].
  apply is_valid_position_spec in Hfrom as [[? ?] [? ?]].
  pose proof Hto as [[? ?] [? ?]]%is_valid_position_spec.
  split.
  - rewrite grid_get_set_ne by done. by apply grid_get_set_eq.
  - apply grid_get_set_None.
Qed.

(** X13: when [_make_move_internal] moves the piece on [from] to another
    square of the board, that square then holds the piece, same color and
    kind, with [has_moved] set, and [from] is empty; whatever stood on the
    destination is gone. *)
Theorem moved_piece_arrives self from_row from_col to_row to_col p :
  wf_grid (board self) ->
  get_piece self from_row from_col = Some p ->
  0 <= to_row < 8 /\ 0 <= to_col < 8 ->
  (from_row, from_col) <> (to_row, to_col) ->
  let after := snd (_make_move_internal from_row from_col to_row to_col self) in
  get_piece after to_row to_col = Some (mkPiece (color p) (piece_type p) true)
  /\ get_piece after from_row from_col = None.
Proof.
  intros Hwf Hp Hto%is_valid_position_spec Hne. simpl.
  destruct (get_piece_Some _ _ _ _ Hp) as [Hfrom _].
  assert (wp (_make_move_internal from_row from_col to_row to_col)
             (fun _ after =>
                get_piece after to_row to_col = Some (mark_moved p)
                /\ get_piece after from_row from_col = None) self) as Hwp.
  { unfold _make_move_internal. apply wp_bind, wp_get_self. rewrite Hp.
    cbn [option_map is_none negb].
    apply wp_bind_wf; [preserves_wf|done|]. intros _ self1 Hwf1.
    apply wp_bind, wp_get_self.
    apply wp_bind_wf; [preserves_wf|done|]. intros _ self2 Hwf2.
    apply wp_bind_wf; [|done|].
    { apply preserves_when. destruct (to_col >? from_col); preserves_wf. }
    intros _ self3 Hwf3. by apply executor_tail. }
  apply wp_run in Hwp as (u & after & -> & Hafter). exact Hafter.
Qed.

Lemma moved_piece_arrives_witness :
  get_piece new_ChessBoard 7 1 = Some (new_Piece WHITE KNIGHT)
  /\ get_piece (snd (_make_move_internal 7 1 5 2 new_ChessBoard)) 5 2
     = Some (mkPiece WHITE KNIGHT true)
  /\ get_piece (snd (_make_move_internal 7 1 5 2 new_ChessBoard)) 7 1 = None.
Proof.
  split; [reflexivity|].
  assert (0 <= 5 < 8 /\ 0 <= 2 < 8) as Hto by lia.
  assert ((7, 1) <> (5, 2)) as Hne by discriminate.
  exact (moved_piece_arrives new_ChessBoard 7 1 5 2 (new_Piece WHITE KNIGHT)
           new_ChessBoard_wf eq_refl Hto Hne).
Defined.

(** The executor's run on a King move from column 4 over two columns. *)
Lemma _make_move_internal_castle self row to_col corner dest king :
  get_piece self row 4 = Some king ->
  piece_type king = KING ->
  0 <= row < 8 ->
  (to_col = 6 /\ corner = 7 /\ dest = 5) \/ (to_col = 2 /\ corner = 0 /\ dest = 3) ->
  let flagged := grid_set (board self) row 4 (Some (mark_moved king)) in
  board (snd (_make_move_internal row 4 row to_col self))
  = grid_set
      (grid_set
         (grid_set (grid_set flagged row dest (grid_get flagged row corner))
                   row corner None)
         row to_col (Some (mark_moved king)))
      row 4 None.
Proof.
  intros Hp Hking Hrow Hside. simpl.
  assert (forall col, 0 <= col < 8 -> is_valid_position row col = true) as Hvalid.
  { intros col Hcol. by apply is_valid_position_spec. }
  unfold _make_move_internal, bind, get_self, board_assign, modify, when, ret.
  rewrite Hp. simpl. rewrite Hking. simpl.
  destruct Hside as [(-> & -> & ->)|(-> & -> & ->)]; simpl;
    unfold relocate_rook, bind, get_self, set_piece, when, modify, ret, get_piece;
    simpl; rewrite !Hvalid by lia; reflexivity.
Qed.

(** X14: castling as executed.  When the King on column 4 of a row moves two
    columns along the row, the executor puts the King on column 6 (or 2),
    moves what stood in the corner on column 7 (or 0) to column 5 (or 3),
    and empties the corner and the King's square.  The relocated piece is
    exactly what stood in the corner: its [has_moved] flag is not set. *)
Theorem castling_relocates_rook self row king :
  wf_grid (board self) ->
  0 <= row < 8 ->
  get_piece self row 4 = Some king ->
  piece_type king = KING ->
  (let after := snd (_make_move_internal row 4 row 6 self) in
   get_piece after row 6 = Some (mark_moved king)
   /\ get_piece after row 5 = get_piece self row 7
   /\ get_piece after row 7 = None
   /\ get_piece after row 4 = None)
  /\ (let after := snd (_make_move_internal row 4 row 2 self) in
      get_piece after row 2 = Some (mark_moved king)
      /\ get_piece after row 3 = get_piece self row 0
      /\ get_piece after row 0 = None
      /\ get_piece after row 4 = None).
Proof.
  intros Hwf Hrow Hp Hking.
  assert (forall col, 0 <= col < 8 -> is_valid_position row col = true) as Hvalid.
  { intros col Hcol. by apply is_valid_position_spec. }
  assert (forall g a b x, wf_grid g -> 0 <= a < 8 -> 0 <= b < 8 ->
            grid_get (grid_set g row a x) row b
            = if a =? b then x else grid_get g row b) as Hget.
  { intros g a b x Hg Ha Hb. destruct (Z.eqb_spec a b) as [->|Hab].
    - by apply grid_get_set_eq; [|apply Hvalid].
    - apply grid_get_set_ne; try lia. congruence. }
  simpl. split.
  - pose proof (_make_move_internal_castle self row 6 7 5 king Hp Hking Hrow
                  ltac:(by left)) as Hboard. simpl in Hboard.
    unfold get_piece. rewrite !Hvalid, Hboard by lia.
    rewrite !Hget by (repeat apply grid_set_wf; done || lia). done.
  - pose proof (_make_move_internal_castle self row 2 0 3 king Hp Hking Hrow
                  ltac:(by right)) as Hboard. simpl in Hboard.
    unfold get_piece. rewrite !Hvalid, Hboard by lia.
    rewrite !Hget by (repeat apply grid_set_wf; done || lia). done.
Qed.

Lemma castling_relocates_rook_witness :
  get_piece kingside_cleared 7 4 = Some (new_Piece WHITE KING)
  /\ get_piece (snd (_make_move_internal 7 4 7 6 kingside_cleared)) 7 6
     = Some (mark_moved (new_Piece WHITE KING))
  /\ get_piece (snd (_make_move_internal 7 4 7 6 kingside_cleared)) 7 5
     = get_piece kingside_cleared 7 7.
Proof.
  split; [reflexivity|].
  assert (0 <= 7 < 8) as Hrow by lia.
  assert (wf_grid (board kingside_cleared)) as Hwf.
  { split; [reflexivity|]. vm_compute. repeat constructor. }
  destruct (proj1 (castling_relocates_rook kingside_cleared 7 (new_Piece WHITE KING)
                     Hwf Hrow eq_refl eq_refl)) as (Hking & Hrook & _).
  split; [exact Hking|exact Hrook].
Defined.

(** ** Sliding pieces *)

Lemma path_loop_walk self rs cs to_row to_col :
  (rs, cs) <> (0, 0) ->
  forall (steps fuel : nat) cr cc,
    to_row = cr + Z.of_nat steps * rs ->
    to_col = cc + Z.of_nat steps * cs ->
    (steps < fuel)%nat ->
    exists clear,
      path_loop fuel self rs cs cr cc to_row to_col = Some clear
      /\ (clear = true
          <-> forall i, 0 <= i < Z.of_nat steps ->
                        is_empty self (cr + i * rs) (cc + i * cs) = true).
Proof.
  intros Hstep. induction steps as [|steps IH]; intros fuel cr cc Hr Hc Hfuel.
  - destruct fuel as [|fuel]; [lia|]. simpl.
    replace (cr =? to_row) with true by (symmetry; apply Z.eqb_eq; lia).
    replace (cc =? to_col) with true by (symmetry; apply Z.eqb_eq; lia).
    simpl. eexists. split; [done|]. split; [intros _ i ?; lia|done].
  - destruct fuel as [|fuel]; [lia|]. simpl.
    assert ((cr =? to_row) && (cc =? to_col) = false) as ->.
    { apply andb_false_iff. rewrite !Z.eqb_neq.
      destruct (decide (rs = 0)) as [->|?]; [right|left]; [|nia].
      assert (cs <> 0) by congruence. nia. }
    simpl. destruct (is_empty self cr cc) eqn:Hempty; simpl.
    + destruct (IH fuel (cr + rs) (cc + cs)) as (clear & Hrun & Hclear); [lia..|].
      exists clear. split; [done|]. rewrite Hclear. split.
      * intros Hrest i Hi. destruct (decide (i = 0)) as [->|?].
        -- by rewrite !Z.mul_0_l, !Z.add_0_r.
        -- specialize (Hrest (i - 1) ltac:(lia)).
           by replace (cr + rs + (i - 1) * rs) with (cr + i * rs) in Hrest by lia;
             replace (cc + cs + (i - 1) * cs) with (cc + i * cs) in Hrest by lia.
      * intros Hall i Hi. specialize (Hall (i + 1) ltac:(lia)).
        by replace (cr + (i + 1) * rs) with (cr + rs + i * rs) in Hall by lia;
          replace (cc + (i + 1) * cs) with (cc + cs + i * cs) in Hall by lia.
    + exists false. split; [done|]. split; [done|].
      intros Hall. specialize (Hall 0 ltac:(lia)).
      rewrite !Z.mul_0_l, !Z.add_0_r in Hall. congruence.
Qed.

Lemma step_toward_unit from step n :
  step = -1 \/ step = 0 \/ step = 1 -> 1 <= n ->
  step_toward from (from + n * step) = step.
Proof.
  intros Hstep Hn. unfold step_toward.
  destruct (Z.eqb_spec (from + n * step) from); [nia|].
  destruct (Z.gtb_spec (from + n * step) from); nia.
Qed.

Lemma _is_path_clear_steps self from_row from_col row_step col_step n :
  row_step = -1 \/ row_step = 0 \/ row_step = 1 ->
  col_step = -1 \/ col_step = 0 \/ col_step = 1 ->
  (row_step, col_step) <> (0, 0) ->
  1 <= n ->
  _is_path_clear self from_row from_col
    (from_row + n * row_step) (from_col + n * col_step) = true
  <-> forall i, 1 <= i < n ->
                is_empty self (from_row + i * row_step) (from_col + i * col_step) = true.
Proof.
  intros Hrs Hcs Hstep Hn.
  pose proof (path_loop_enough self from_row from_col
                (from_row + n * row_step) (from_col + n * col_step)
                (path_fuel + Z.to_nat n) ltac:(lia)) as Henough.
  rewrite !step_toward_unit in Henough by done.
  destruct (path_loop_walk self row_step col_step
              (from_row + n * row_step) (from_col + n * col_step) Hstep
              (Z.to_nat (n - 1)) (path_fuel + Z.to_nat n)
              (from_row + row_step) (from_col + col_step))
    as (clear & Hrun & Hclear); [lia..|].
  rewrite Hrun in Henough. apply Some_inj in Henough as <-.
  rewrite Hclear. split.
  - intros Hall i Hi. specialize (Hall (i - 1) ltac:(lia)).
    by replace (from_row + row_step + (i - 1) * row_step)
      with (from_row + i * row_step) in Hall by lia;
      replace (from_col + col_step + (i - 1) * col_step)
        with (from_col + i * col_step) in Hall by lia.
  - intros Hall i Hi. specialize (Hall (i + 1) ltac:(lia)).
    by replace (from_row + (i + 1) * row_step)
      with (from_row + row_step + i * row_step) in Hall by lia;
      replace (from_col + (i + 1) * col_step)
        with (from_col + col_step + i * col_step) in Hall by lia.
Qed.

(** X15: the walk of [_is_path_clear] leaves its loop for every pair of
    squares, aligned or not: nine tests of the loop condition are enough
    and more change nothing.  From a square to the square [n >= 1] unit
    steps away along a row, a column or a diagonal it answers [True] exactly
    when the [n - 1] squares strictly between the two are all empty squares
    of the board; the two end squares are not looked at. *)
Theorem _is_path_clear_spec self from_row from_col :
  (forall to_row to_col fuel,
      (path_fuel <= fuel)%nat ->
      path_loop fuel self (step_toward from_row to_row) (step_toward from_col to_col)
        (from_row + step_toward from_row to_row)
        (from_col + step_toward from_col to_col) to_row to_col
      = Some (_is_path_clear self from_row from_col to_row to_col))
  /\ (forall row_step col_step n,
         row_step = -1 \/ row_step = 0 \/ row_step = 1 ->
         col_step = -1 \/ col_step = 0 \/ col_step = 1 ->
         (row_step, col_step) <> (0, 0) ->
         1 <= n ->
         _is_path_clear self from_row from_col
           (from_row + n * row_step) (from_col + n * col_step) = true
         <-> forall i, 1 <= i < n ->
                       is_empty self (from_row + i * row_step)
                                     (from_col + i * col_step) = true).
Proof.
  split.
  - intros to_row to_col fuel Hfuel. by apply path_loop_enough.
  - intros row_step col_step n Hrs Hcs Hstep Hn. by apply _is_path_clear_steps.
Qed.

Lemma _is_path_clear_spec_witness :
  _is_path_clear new_ChessBoard 6 4 (6 + 4 * -1) (4 + 4 * 0) = true.
Proof.
  assert ((-1, 0) <> (0, 0)) as Hstep by discriminate.
  apply (proj2 (_is_path_clear_spec new_ChessBoard 6 4) (-1) 0 4);
    [lia|lia|exact Hstep|lia|].
  intros i Hi.
  assert (i = 1 \/ i = 2 \/ i = 3) as [->|[->| ->]] by lia; reflexivity.
Defined.

Lemma _is_path_clear_same self row col : _is_path_clear self row col row col = true.
Proof.
  unfold _is_path_clear, step_toward. rewrite !Z.eqb_refl. simpl.
  by rewrite !Z.add_0_r, !Z.eqb_refl.
Qed.

Lemma _is_path_clear_line self from_row from_col to_row to_col :
  (from_row, from_col) <> (to_row, to_col) ->
  to_row = from_row \/ to_col = from_col
  \/ Z.abs (to_row - from_row) = Z.abs (to_col - from_col) ->
  _is_path_clear self from_row from_col to_row to_col = true
  <-> forall i, 1 <= i < Z.max (Z.abs (to_row - from_row)) (Z.abs (to_col - from_col)) ->
                is_empty self (from_row + i * Z.sgn (to_row - from_row))
                              (from_col + i * Z.sgn (to_col - from_col)) = true.
Proof.
  intros Hne Hline.
  set (n := Z.max (Z.abs (to_row - from_row)) (Z.abs (to_col - from_col))).
  assert (1 <= n) by (assert (to_row <> from_row \/ to_col <> from_col)
                        by (destruct (decide (to_row = from_row)); [right|left];
                            congruence); lia).
  assert (to_row = from_row + n * Z.sgn (to_row - from_row)) as Hr by (subst n; nia).
  assert (to_col = from_col + n * Z.sgn (to_col - from_col)) as Hc by (subst n; nia).
  rewrite Hr at 1. rewrite Hc at 1.
  apply _is_path_clear_steps; [lia..| |done].
  intros [= Hrs Hcs]. apply Hne. f_equal; lia.
Qed.

(** X16: the rook rule accepts a move exactly when origin and destination
    share a row or a column and every square strictly between them is an
    empty square; the bishop rule exactly when the move is diagonal and every
    square strictly between is empty.  Neither looks at the destination. *)
Theorem sliding_rules self from_row from_col to_row to_col :
  (_is_valid_rook_move self from_row from_col to_row to_col = true
   <-> (to_row = from_row
        /\ forall col, strictly_between from_col col to_col ->
                       is_empty self from_row col = true)
       \/ (to_col = from_col
           /\ forall row, strictly_between from_row row to_row ->
                          is_empty self row from_col = true))
  /\ (_is_valid_bishop_move self from_row from_col to_row to_col = true
      <-> Z.abs (to_row - from_row) = Z.abs (to_col - from_col)
          /\ forall i, 1 <= i < Z.abs (to_row - from_row) ->
                       is_empty self (from_row + i * Z.sgn (to_row - from_row))
                                     (from_col + i * Z.sgn (to_col - from_col)) = true).
Proof.
  unfold strictly_between. split.
  - unfold _is_valid_rook_move.
    destruct (Z.eqb_spec from_row to_row) as [<-|Hrow];
      destruct (Z.eqb_spec from_col to_col) as [<-|Hcol]; simpl.
    + rewrite _is_path_clear_same. split; [|done]. intros _. left.
      split; [done|]. intros; lia.
    + rewrite _is_path_clear_line by (done || congruence || auto).
      rewrite Z.sub_diag. simpl.
      split.
      * intros Hall. left. split; [done|]. intros col Hcol'.
        specialize (Hall (Z.abs (col - from_col)) ltac:(lia)).
        rewrite Z.mul_0_r, Z.add_0_r in Hall.
        by replace (from_col + Z.abs (col - from_col) * Z.sgn (to_col - from_col))
          with col in Hall by nia.
      * intros [[_ Hall]|[? _]]; [|done]. intros i Hi.
        rewrite Z.mul_0_r, Z.add_0_r. apply Hall. nia.
    + rewrite _is_path_clear_line by (done || congruence || auto).
      rewrite Z.sub_diag. simpl.
      split.
      * intros Hall. right. split; [done|]. intros row Hrow'.
        specialize (Hall (Z.abs (row - from_row)) ltac:(lia)).
        rewrite Z.mul_0_r, Z.add_0_r in Hall.
        by replace (from_row + Z.abs (row - from_row) * Z.sgn (to_row - from_row))
          with row in Hall by nia.
      * intros [[? _]|[_ Hall]]; [done|]. intros i Hi.
        rewrite Z.mul_0_r, Z.add_0_r. apply Hall. nia.
    + split; [done|]. intros [[? _]|[? _]]; congruence.
  - unfold _is_valid_bishop_move.
    destruct (Z.eqb_spec (Z.abs (to_row - from_row)) (Z.abs (to_col - from_col)))
      as [Hdiag|Hdiag]; simpl; [|split; [done|by intros [? _]]].
    destruct (decide ((from_row, from_col) = (to_row, to_col))) as [[= <- <-]|Hne].
    + rewrite _is_path_clear_same. split; [|done]. intros _.
      split; [done|]. intros; lia.
    + rewrite _is_path_clear_line by auto.
      rewrite <- Hdiag, Z.max_id. split; [by split|by intros [_ ?]].
Qed.

(** ** Pawns *)

Lemma is_en_passant_target_spec self row col :
  is_en_passant_target self row col = true <-> en_passant_target self = Some (row, col).
Proof.
  unfold is_en_passant_target. destruct (en_passant_target self) as [[r c]|]; [|done].
  rewrite andb_true_iff, !Z.eqb_eq. split; [by intros [-> ->]|by intros [= -> ->]].
Qed.

(** X17: the pawn rule.  A pawn moves toward row 0 if White and toward row 7
    if Black: straight ahead, one row or two rows from its start row, only
    onto an empty square; or one row ahead and one column aside, only onto a
    square held by the opponent or onto the en-passant target.  Nothing else
    is accepted. *)
Theorem pawn_rule self from_row from_col to_row to_col p :
  get_piece self from_row from_col = Some p ->
  let direction := pawn_direction (color p) in
  _is_valid_pawn_move self from_row from_col to_row to_col = Ok true
  <-> (to_col = from_col
       /\ is_empty self to_row to_col = true
       /\ (to_row = from_row + direction
           \/ (from_row = pawn_start_row (color p)
               /\ to_row = from_row + 2 * direction)))
      \/ (Z.abs (to_col - from_col) = 1
          /\ to_row = from_row + direction
          /\ (is_occupied_by_opponent self to_row to_col (color p) = true
              \/ en_passant_target self = Some (to_row, to_col))).
Proof.
  intros Hp. simpl. rewrite <- is_en_passant_target_spec.
  unfold _is_valid_pawn_move, is_occupied_by_opponent. rewrite Hp.
  assert (pawn_direction (color p) = 1 \/ pawn_direction (color p) = -1) as Hdir
      by (destruct (color p); auto).
  destruct (Z.eqb_spec from_col to_col) as [Hcol|Hcol];
    destruct (is_empty self to_row to_col) eqn:Hempty;
    destruct (Z.eqb_spec to_row (from_row + pawn_direction (color p))) as [Hone|Hone];
    destruct (Z.eqb_spec from_row (pawn_start_row (color p))) as [Hstart|Hstart];
    destruct (Z.eqb_spec to_row (from_row + 2 * pawn_direction (color p))) as [Htwo|Htwo];
    destruct (Z.eqb_spec (Z.abs (to_col - from_col)) 1) as [Hside|Hside];
    simpl;
    try (destruct (get_piece self to_row to_col) as [target|];
         [destruct (Color_eqb (color target) (color p))|]; simpl;
         destruct (is_en_passant_target self to_row to_col));
    split; try done; try lia; intros; intuition (try done; try lia; try congruence).
Qed.

Lemma pawn_rule_witness :
  get_piece en_passant_ready 3 4 = Some (mark_moved (new_Piece WHITE PAWN))
  /\ _is_valid_pawn_move en_passant_ready 3 4 2 3 = Ok true.
Proof.
  split; [reflexivity|].
  apply (pawn_rule en_passant_ready 3 4 2 3 (mark_moved (new_Piece WHITE PAWN)) eq_refl).
  right. split; [reflexivity|]. split; [reflexivity|]. right. reflexivity.
Defined.

(** ** Move strings *)

Lemma str_int_rank row :
  0 <= row < 8 -> str_int (8 - row) = [char "0" + (8 - row)].
Proof.
  intros Hrow.
  assert (row = 0 \/ row = 1 \/ row = 2 \/ row = 3
          \/ row = 4 \/ row = 5 \/ row = 6 \/ row = 7) as Hcases by lia.
  repeat (destruct Hcases as [->|Hcases]); try subst row; reflexivity.
Qed.

Lemma move_name_on_board from_row from_col to_row to_col :
  0 <= from_row < 8 -> 0 <= to_row < 8 ->
  move_name (from_row, from_col, to_row, to_col)
  = [char "a" + from_col; char "0" + (8 - from_row);
     char "a" + to_col; char "0" + (8 - to_row)].
Proof.
  intros Hfrom Hto. unfold move_name, square_name, chr, ord.
  by rewrite !str_int_rank.
Qed.

(** The strings [parse_move] accepts, for any table of decimal digits. *)
Lemma parse_move_Some decimal move_str from_row from_col to_row to_col :
  parse_move decimal move_str = Some (from_row, from_col, to_row, to_col)
  <-> (0 <= from_row < 8 /\ 0 <= from_col < 8)
      /\ (0 <= to_row < 8 /\ 0 <= to_col < 8)
      /\ exists rank rank',
           move_str = [char "a" + from_col; rank; char "a" + to_col; rank']
           /\ decimal rank = Some (8 - from_row)
           /\ decimal rank' = Some (8 - to_row).
Proof.
  unfold parse_move, int_of_char, ord. split.
  - destruct move_str as [|c0 [|c1 [|c2 [|c3 [|? ?]]]]]; try done.
    destruct (decimal c1) as [d1|] eqn:Hd1; [|done].
    destruct (decimal c3) as [d3|] eqn:Hd3; [|done].
    cbv zeta. destruct (_ && _) eqn:Hrange; [|done]. intros [= <- <- <- <-].
    split; [lia|]. split; [lia|]. exists c1, c3.
    split; [repeat f_equal; lia|].
    split; [rewrite Hd1|rewrite Hd3]; f_equal; lia.
  - intros (Hfrom & Hto & rank & rank' & -> & -> & ->). cbv zeta.
    replace (char "a" + from_col - char "a") with from_col by lia.
    replace (char "a" + to_col - char "a") with to_col by lia.
    replace (8 - (8 - from_row)) with from_row by lia.
    replace (8 - (8 - to_row)) with to_row by lia.
    assert ((0 <=? from_row) && (from_row <? 8) && ((0 <=? from_col) && (from_col <? 8))
            && ((0 <=? to_row) && (to_row <? 8) && ((0 <=? to_col) && (to_col <? 8)))
            = true) as -> by lia.
    done.
Qed.

(** X18: [parse_move] reads back the names [show_valid_moves] prints: for a
    move between two squares of the board, parsing its name gives the move. *)
Theorem parse_move_of_move_name decimal from_row from_col to_row to_col :
  knows_ascii_digits decimal ->
  0 <= from_row < 8 /\ 0 <= from_col < 8 ->
  0 <= to_row < 8 /\ 0 <= to_col < 8 ->
  parse_move decimal (move_name (from_row, from_col, to_row, to_col))
  = Some (from_row, from_col, to_row, to_col).
Proof.
  intros Hdecimal [Hfr Hfc] [Htr Htc].
  rewrite move_name_on_board by done. apply parse_move_Some.
  split; [done|]. split; [done|]. eexists _, _. split; [done|].
  split; apply Hdecimal; lia.
Qed.

Lemma sample_decimal_ascii : knows_ascii_digits sample_decimal.
Proof.
  intros d Hd. unfold sample_decimal. change (char "0") with 48.
  assert ((48 <=? 48 + d) && (48 + d <=? 57) = true) as -> by lia.
  f_equal. lia.
Qed.

Lemma parse_move_of_move_name_witness :
  move_name (6, 4, 4, 4) = literal "e2e4"
  /\ parse_move sample_decimal (move_name (6, 4, 4, 4)) = Some (6, 4, 4, 4).
Proof.
  split; [reflexivity|].
  apply (parse_move_of_move_name sample_decimal 6 4 4 4 sample_decimal_ascii); lia.
Defined.

(** X19: what [parse_move] accepts.  It returns a move exactly for the
    strings of four characters made of the file letter of the origin column
    ([a] for 0 to [h] for 7), a decimal digit of value 8 minus the origin
    row, the file letter of the destination column and a decimal digit of
    value 8 minus the destination row, with all four coordinates on the
    board.  The digits need not be ASCII: every character [int] accepts
    with the right value will do. *)
Theorem parse_move_sound decimal move_str from_row from_col to_row to_col :
  parse_move decimal move_str = Some (from_row, from_col, to_row, to_col)
  <-> length move_str = 4%nat
      /\ (0 <= from_row < 8 /\ 0 <= from_col < 8)
      /\ (0 <= to_row < 8 /\ 0 <= to_col < 8)
      /\ exists rank rank',
           move_str = [chr (ord (char "a") + from_col); rank;
                       chr (ord (char "a") + to_col); rank']
           /\ int_of_char decimal rank = Some (8 - from_row)
           /\ int_of_char decimal rank' = Some (8 - to_row).
Proof.
  rewrite parse_move_Some. unfold chr, ord, int_of_char. split.
  - intros (Hfrom & Hto & rank & rank' & -> & Hrank & Hrank').
    split; [done|]. split; [done|]. split; [done|]. by exists rank, rank'.
  - intros (_ & Hfrom & Hto & Hstr). done.
Qed.

Lemma parse_move_sound_witness :
  parse_move sample_decimal [101; 50; 101; 65300] = Some (6, 4, 4, 4)
  /\ [101; 50; 101; 65300] <> move_name (6, 4, 4, 4).
Proof.
  split.
  - apply (parse_move_sound sample_decimal [101; 50; 101; 65300] 6 4 4 4).
    split; [reflexivity|]. split; [lia|]. split; [lia|].
    exists 50, 65300. split; [reflexivity|]. split; reflexivity.
  - discriminate.
Defined.

(** ** [ChessGame.make_move] *)

Lemma make_move_cases self from_row from_col to_row to_col :
  (accepted self from_row from_col to_row to_col = false
   /\ make_move from_row from_col to_row to_col self = (Ok false, self))
  \/ (accepted self from_row from_col to_row to_col = true
      /\ exists after,
           make_move from_row from_col to_row to_col self = (Ok true, after)
           /\ current_turn after = opposite (current_turn self)).
Proof.
  unfold make_move. erewrite bind_Ok by apply is_valid_move_accepted.
  destruct (accepted self from_row from_col to_row to_col); [right|left; done].
  split; [done|]. cbn [negb].
  destruct (preserves_run _ _ self
              (preserves_turn_history_make_move_internal
                 (current_turn self) (move_history self)
                 from_row from_col to_row to_col)
              (conj eq_refl eq_refl))
    as ([] & after & Hrun & Hturn & _).
  unfold bind, get_self, modify, ret. rewrite Hrun.
  eexists. split; [done|]. cbn [current_turn with_current_turn with_move_history].
  by rewrite Hturn.
Qed.

(** X20: [ChessGame.make_move] never raises, whatever the string.  When it
    returns [False] the board state is as it was.  It returns [True] only
    for a string that [parse_move] reads as a move between two squares of
    the board which [is_valid_move] accepts, and then the turn has passed to
    the other color: the moves that leave the board cannot be entered as
    strings. *)
Theorem ChessGame_make_move_spec decimal move_str self :
  (exists done after, ChessGame_make_move decimal move_str self = (Ok done, after))
  /\ (fst (ChessGame_make_move decimal move_str self) = Ok false ->
      snd (ChessGame_make_move decimal move_str self) = self)
  /\ (fst (ChessGame_make_move decimal move_str self) = Ok true ->
      exists from_row from_col to_row to_col,
        parse_move decimal move_str = Some (from_row, from_col, to_row, to_col)
        /\ (0 <= from_row < 8 /\ 0 <= from_col < 8)
        /\ (0 <= to_row < 8 /\ 0 <= to_col < 8)
        /\ fst (is_valid_move from_row from_col to_row to_col self) = Ok true
        /\ current_turn (snd (ChessGame_make_move decimal move_str self))
           = opposite (current_turn self)).
Proof.
  unfold ChessGame_make_move.
  destruct (parse_move decimal move_str) as [[[[fr fc] tr] tc]|] eqn:Hparse.
  - pose proof Hparse as (Hfrom & Hto & _)%parse_move_Some.
    destruct (make_move_cases self fr fc tr tc)
      as [[Hacc ->]|(Hacc & after & -> & Hturn)]; simpl.
    + split; [eauto|]. split; [done|discriminate].
    + split; [eauto|]. split; [discriminate|]. intros _.
      exists fr, fc, tr, tc. by rewrite <- accepted_true.
  - unfold ret. simpl. split; [eauto|]. split; [done|discriminate].
Qed.

Lemma ChessGame_make_move_spec_witness :
  fst (ChessGame_make_move sample_decimal [101; 50; 101; 65300] new_ChessBoard) = Ok true
  /\ exists from_row from_col to_row to_col,
       parse_move sample_decimal [101; 50; 101; 65300]
       = Some (from_row, from_col, to_row, to_col)
       /\ (0 <= from_row < 8 /\ 0 <= from_col < 8)
       /\ (0 <= to_row < 8 /\ 0 <= to_col < 8)
       /\ fst (is_valid_move from_row from_col to_row to_col new_ChessBoard) = Ok true
       /\ current_turn (snd (ChessGame_make_move sample_decimal [101; 50; 101; 65300]
                               new_ChessBoard))
          = opposite (current_turn new_ChessBoard).
Proof.
  assert (fst (ChessGame_make_move sample_decimal [101; 50; 101; 65300] new_ChessBoard)
          = Ok true) as Hok by reflexivity.
  split; [exact Hok|].
  exact (proj2 (proj2 (ChessGame_make_move_spec sample_decimal [101; 50; 101; 65300]
                         new_ChessBoard)) Hok).
Defined.
